(** * UniView EPBv2 notifier: the reconciliation engine of [send_asset_email.py]

    A shallow embedding of the notifier script and the properties of its
    state-reconciliation and notification-decision logic.

    Modelling conventions.
    - Python [str] values are Rocq strings of ASCII characters.
    - A row of [assets_rows.json] is a record whose text fields are strings
      or [null] (what [API.py] forwards from the inventory service) and
      whose timestamp field is a number, a string or [null].
    - A timezone-aware UTC [datetime] is the integer count of microseconds
      since the Unix epoch, restricted to the years 1..9999 that [datetime]
      can hold.
    - Python floats are the rationals they stand for: arithmetic on them is
      exact, there is no rounding and no overflow.
    - The persisted state is a finite map from asset identifier to the entry
      [save_state] writes for it, an integer or [null] and a string or
      [null]: [assets_state.json] is written by this script alone.
    - The file system, the clock and the SMTP transport are inputs of a run:
      the contents of the two files [main] reads, the instant returned by
      [datetime.now], and whether each of the three fallible writes
      succeeds.  A run reads the clock once: the readings
      [compute_backup_status] makes later in the same run are taken to
      return the same instant.  Console output and the append-only
      [send.log] are left out. *)

From Stdlib Require Import ZArith QArith Qabs String Ascii List Bool Sorting Lia.
From stdpp Require Import base option list gmap strings pretty sorting.

Local Open Scope string_scope.
Local Open Scope list_scope.
Local Open Scope Z_scope.

(** ** Text helpers: the [str] methods the script calls *)

Module PyStr.

(** [str.isspace] on one ASCII character: TAB, LF, VT, FF, CR, the four
    separators FS, GS, RS, US, and the space. *)
Definition is_space (c : ascii) : bool :=
  let n := N_of_ascii c in
  ((9 <=? n) && (n <=? 13) || (28 <=? n) && (n <=? 32))%N.

Fixpoint lstrip (s : string) : string :=
  match s with
  | EmptyString => EmptyString
  | String c s' => if is_space c then lstrip s' else s
  end.

Definition rstrip (s : string) : string :=
  String.rev (lstrip (String.rev s)).

(** [s.strip()] *)
Definition strip (s : string) : string := rstrip (lstrip s).

Definition lower_char (c : ascii) : ascii :=
  let n := N_of_ascii c in
  if ((65 <=? n) && (n <=? 90))%N then ascii_of_N (n + 32) else c.

(** [s.lower()] *)
Fixpoint lower (s : string) : string :=
  match s with
  | EmptyString => EmptyString
  | String c s' => String (lower_char c) (lower s')
  end.

Fixpoint startswith (p s : string) : bool :=
  match p, s with
  | EmptyString, _ => true
  | String a p', String b s' => if ascii_dec a b then startswith p' s' else false
  | String _ _, EmptyString => false
  end.

(** [needle in s] *)
Fixpoint contains (needle s : string) : bool :=
  startswith needle s ||
  match s with
  | EmptyString => false
  | String _ s' => contains needle s'
  end.

Definition is_digit_char (c : ascii) : bool :=
  let n := N_of_ascii c in ((48 <=? n) && (n <=? 57))%N.

Fixpoint all_digits (s : string) : bool :=
  match s with
  | EmptyString => true
  | String c s' => is_digit_char c && all_digits s'
  end.

(** [s.isdigit()]: every character is a digit and there is at least one. *)
Definition isdigit (s : string) : bool :=
  match s with
  | EmptyString => false
  | _ => all_digits s
  end.

Fixpoint int_acc (acc : Z) (s : string) : Z :=
  match s with
  | EmptyString => acc
  | String c s' => int_acc (10 * acc + (Z.of_N (N_of_ascii c) - 48)) s'
  end.

(** [int(s)] on a string of digits. *)
Definition int (s : string) : Z := int_acc 0 s.

(** Truthiness of a string: [bool(s)]. *)
Definition truthy (s : string) : bool :=
  match s with EmptyString => false | _ => true end.

End PyStr.

(** ** Timestamps *)

(** Microseconds since 1970-01-01T00:00:00Z. *)
Definition instant := Z.

(** 0001-01-01T00:00:00Z and 9999-12-31T23:59:59.999999Z. *)
Definition MIN_INSTANT : instant := -62135596800000000.
Definition MAX_INSTANT : instant := 253402300799999999.

(** Rounding to the nearest integer, ties to the even one: how
    [datetime.fromtimestamp] turns the fraction of a second into
    microseconds. *)
Definition round_half_even (q : Q) : Z :=
  let n := Qnum q in
  let d := Z.pos (Qden q) in
  let f := n / d in
  let r := n mod d in
  if 2 * r <? d then f
  else if d <? 2 * r then f + 1
  else if Z.even f then f else f + 1.

(** The range of [datetime]: a count of microseconds outside the years
    1..9999 makes the constructor raise. *)
Definition of_microseconds (us : Z) : option instant :=
  if (MIN_INSTANT <=? us) && (us <=? MAX_INSTANT) then Some us else None.

(** [datetime.fromtimestamp(sec, tz=timezone.utc)] under
    [try: ... except Exception: return None]: out of the range of
    [datetime] the call raises and the caller returns [None]. *)
Definition fromtimestamp (sec : Q) : option instant :=
  of_microseconds (round_half_even (sec * 1000000)).

(** [int(dt.timestamp())]: whole epoch seconds, truncated towards zero. *)
Definition timestamp_int (dt : instant) : Z := Z.quot dt 1000000.

(** [now_utc.hour] *)
Definition hour (dt : instant) : Z := (dt / 3600000000) mod 24.

(** The untyped [lastSuccessfulBackupTimestamp] of a row. *)
Inductive raw_ts :=
| TsNone
| TsInt (n : Z)
| TsFloat (x : Q)
| TsStr (s : string).

(** [sec > 1e12] *)
Definition gt_1e12 (sec : Q) : bool := negb (Qle_bool sec 1000000000000).

(** [if sec > 1e12: sec /= 1000.0] (lines 86-87, and 100-101 on [n]). *)
Definition epoch_seconds (sec : Q) : Q :=
  if gt_1e12 sec then (sec / 1000)%Q else sec.

Section Notifier.

(** The ISO branch of [_parse_to_utc_datetime] (lines 108-125):
    [datetime.fromisoformat] with a trailing Z read as +00:00 and naive
    values taken as UTC, then the three [strptime] formats, [None] when
    all of them raise.  The parsers belong to Python's library. *)
Variable parse_iso : string -> option instant.

Definition _parse_to_utc_datetime (ts : raw_ts) : option instant :=
  match ts with
  | TsNone => None
  | TsInt n =>
      let sec := inject_Z n in
      fromtimestamp (epoch_seconds sec)
  | TsFloat x =>
      let sec := x in
      fromtimestamp (epoch_seconds sec)
  | TsStr s0 =>
      let s := PyStr.strip s0 in
      if decide (s = "") then None
      else if PyStr.isdigit s then
        let n := inject_Z (PyStr.int s) in
        fromtimestamp (epoch_seconds n)
      else parse_iso s
  end.

Definition _epoch_seconds_or_none (ts : raw_ts) : option Z :=
  match ts with
  | TsNone => None
  | _ =>
      match _parse_to_utc_datetime ts with
      | Some dt => Some (timestamp_int dt)
      | None => None
      end
  end.


(** *** Rows and the status classifier *)

(** One element of the list in [assets_rows.json]. *)
Record row := {
  Organization : option string;
  AssetId : option string;
  AssetName : option string;
  Status : option string;
  lastSuccessfulBackupTimestamp : raw_ts }.

(** [x or ""] on a string or [null]. *)
Definition or_empty (x : option string) : string := default "" x.

Inductive health := Success | Warning | Failure.

(** [(now - dt_utc).total_seconds() / 3600.0] *)
Definition hours_between (now dt_utc : instant) : Q := (now - dt_utc) # 3600000000.

(** [compute_backup_status(row)], with the instant [datetime.now] returns. *)
Definition compute_backup_status (now : instant) (r : row) : health :=
  let status_raw := Status r in
  if match status_raw with
     | Some s => PyStr.truthy s && PyStr.contains "in progress" (PyStr.lower s)
     | None => false
     end
  then Warning
  else
    let ts := lastSuccessfulBackupTimestamp r in
    match _parse_to_utc_datetime ts with
    | Some dt_utc =>
        let hours := hours_between now dt_utc in
        if Qle_bool hours 12 then Success
        else if negb (Qle_bool hours 12) && Qle_bool hours 23 then Warning
        else Failure
    | None => Failure
    end.

(** One line of the CSV attachment.  [Backup_Date] holds the instant the
    script prints in ISO form, [None] for the empty string. *)
Record csv_row := {
  Device : string;
  Status_col : health;
  Backup_Date : option instant;
  Client : string;
  Job : string }.

Definition JOB_NAME : string := "EPBv2".

Definition csv_row_of (now : instant) (r : row) : csv_row :=
  {| Device := or_empty (AssetName r);
     Status_col := compute_backup_status now r;
     Backup_Date := _parse_to_utc_datetime (lastSuccessfulBackupTimestamp r);
     Client := or_empty (Organization r);
     Job := JOB_NAME |}.

Definition _build_csv_rows (now : instant) (full_rows : list row) : list csv_row :=
  map (csv_row_of now) full_rows.

(** *** The persisted state *)

(** [{"ts": <int or null>, "status": <str or null>}] *)
Record entry := { ts : option Z; status : option string }.

(** What [STATE_FILE] holds: nothing, text that is not a JSON object, or
    the object keyed by asset identifier. *)
Inductive state_file :=
| StateMissing
| StateUnreadable (text : string)
| StateDict (d : gmap string entry).

Definition load_state (f : state_file) : gmap string entry :=
  match f with
  | StateDict j => j
  | _ => ∅
  end.

(** [save_state(state)]: the new content replaces the file, or the write
    raises, a warning is printed and the file stays as it was. *)
Definition save_state (writable : bool) (state : gmap string entry)
    (f : state_file) : state_file :=
  if writable then StateDict state else f.

(** [str(r.get("AssetId") or "")] *)
Definition aid_of (r : row) : string := or_empty (AssetId r).

(** [(r.get("Status") or "").strip()] *)
Definition current_status_of (r : row) : string := PyStr.strip (or_empty (Status r)).

(** The entry written for a row (lines 402-407 and 414-419). *)
Definition entry_of (r : row) : entry :=
  let current_ts_epoch := _epoch_seconds_or_none (lastSuccessfulBackupTimestamp r) in
  let current_status := current_status_of r in
  {| ts := current_ts_epoch;
     status := if PyStr.truthy current_status then Some current_status else None |}.

(** The body of the incremental loop up to [send_flag] (lines 319-341). *)
Definition send_flag (state : gmap string entry) (r : row) : bool :=
  let aid := aid_of r in
  let current_ts_epoch := _epoch_seconds_or_none (lastSuccessfulBackupTimestamp r) in
  let current_status := current_status_of r in
  let stored := state !! aid in
  let stored_ts := stored ≫= ts in
  let stored_status := stored ≫= status in
  let send_flag := false in
  let send_flag :=
    match current_ts_epoch with
    | Some cur =>
        match stored_ts with
        | None => true
        | Some stored_ts_int => if stored_ts_int <? cur then true else send_flag
        end
    | None => send_flag
    end in
  let send_flag :=
    if negb send_flag && PyStr.truthy current_status
       && negb (String.eqb current_status (or_empty stored_status))
    then true else send_flag in
  send_flag.


(** *** One run of [main] *)

(** The three running options of the script. *)
Record config := {
  DRY_RUN : bool;
  SAMPLE_COUNT : Z;
  FIRST_RUN_FULL : bool }.

(** What [DATA_FILE] holds: nothing, text that is not JSON, JSON that is
    not a list, or the list of rows. *)
Inductive data_file :=
| DataMissing
| DataUnparsable
| DataNotList
| DataRows (rows : list row).

(** Everything a run reads from outside. *)
Record env := {
  conf : config;
  DATA_FILE : data_file;
  STATE_FILE : state_file;
  now_utc : instant;
  csv_writable : bool;      (* [_write_csv] does not raise *)
  smtp_accepts : bool;      (* [_send_email_real] does not raise *)
  state_writable : bool }.  (* the writes of [save_state] do not raise *)

(** The effects of a run on the outside, in program order. *)
Inductive event :=
| EvWriteCsv (rows : list csv_row) (ok : bool)
| EvEmail (simulated : bool) (subject_type : string) (rows : list csv_row) (ok : bool)
| EvSaveState (state : gmap string entry) (ok : bool).

Record outcome := {
  exit_code : Z;
  STATE_FILE_after : state_file;
  trace : list event }.

(** [rows[:n]] *)
Definition slice_to {A} (n : Z) (rows : list A) : list A :=
  if n <? 0 then take (length rows - Z.to_nat (- n)) rows
  else take (Z.to_nat n) rows.

(** [rows if SAMPLE_COUNT == 0 else rows[:SAMPLE_COUNT]] *)
Definition to_process_of (c : config) (rows : list row) : list row :=
  if SAMPLE_COUNT c =? 0 then rows else slice_to (SAMPLE_COUNT c) rows.

Definition is_daily_full_run (now : instant) : bool := hour now =? 21.

(** [not bool(state)] *)
Definition initial_run (state : gmap string entry) : bool :=
  bool_decide (state = ∅).

(** Lines 302-305. *)
Definition is_full (c : config) (now : instant) (state : gmap string entry) : bool :=
  if initial_run state && FIRST_RUN_FULL c then true
  else is_daily_full_run now.

(** One turn of the incremental loop (lines 317-347) on the pair
    [(rows_for_csv, changed_asset_ids)]. *)
Definition incremental_step (now : instant) (state : gmap string entry)
    (acc : list csv_row * list string) (r : row) : list csv_row * list string :=
  let '(rows_for_csv, changed_asset_ids) := acc in
  if send_flag state r then
    let csv_row := csv_row_of now r in
    (rows_for_csv ++ [csv_row], changed_asset_ids ++ [aid_of r])
  else acc.

(** Lines 307-347: the rows to send and the identifiers to update. *)
Definition select (full : bool) (now : instant) (state : gmap string entry)
    (to_process : list row) : list csv_row * list string :=
  if full then
    (_build_csv_rows now to_process,
     foldl (λ changed_asset_ids r, changed_asset_ids ++ [aid_of r]) [] to_process)
  else
    foldl (incremental_step now state) ([], []) to_process.

(** Lines 399-419: the state handed to [save_state] after a send. *)
Definition updated_state (full : bool) (state : gmap string entry)
    (to_process : list row) (changed_asset_ids : list string) : gmap string entry :=
  let new_state := state in
  if full then
    foldl (λ new_state r, <[aid_of r := entry_of r]> new_state) new_state to_process
  else
    let id_set : gset string := list_to_set changed_asset_ids in
    foldl (λ new_state r,
             if decide (aid_of r ∈ id_set)
             then <[aid_of r := entry_of r]> new_state
             else new_state)
          new_state to_process.

Definition subject_type_of (full : bool) : string :=
  if full then "FULL" else "INCR".

Definition main (e : env) : outcome :=
  match DATA_FILE e with
  | DataMissing | DataUnparsable | DataNotList =>
      {| exit_code := 1; STATE_FILE_after := STATE_FILE e; trace := [] |}
  | DataRows rows =>
      let to_process := to_process_of (conf e) rows in
      let state := load_state (STATE_FILE e) in
      if initial_run state && negb (FIRST_RUN_FULL (conf e)) then
        {| exit_code := 0;
           STATE_FILE_after := save_state (state_writable e) ∅ (STATE_FILE e);
           trace := [EvSaveState ∅ (state_writable e)] |}
      else
        let full := is_full (conf e) (now_utc e) state in
        let '(rows_for_csv, changed_asset_ids) :=
          select full (now_utc e) state to_process in
        match rows_for_csv with
        | [] => {| exit_code := 0; STATE_FILE_after := STATE_FILE e; trace := [] |}
        | _ =>
            if negb (csv_writable e) then
              {| exit_code := 1; STATE_FILE_after := STATE_FILE e;
                 trace := [EvWriteCsv rows_for_csv false] |}
            else
              let subject_type := subject_type_of full in
              let success := if DRY_RUN (conf e) then true else smtp_accepts e in
              let email := EvEmail (DRY_RUN (conf e)) subject_type rows_for_csv success in
              if success then
                let new_state := updated_state full state to_process changed_asset_ids in
                {| exit_code := 0;
                   STATE_FILE_after :=
                     save_state (state_writable e) new_state (STATE_FILE e);
                   trace := [EvWriteCsv rows_for_csv true; email;
                             EvSaveState new_state (state_writable e)] |}
              else
                {| exit_code := 0; STATE_FILE_after := STATE_FILE e;
                   trace := [EvWriteCsv rows_for_csv true; email] |}
        end
  end.

(** *** Reading a run's trace *)

(** The result of the delivery attempt of a run, if it made one. *)
Definition delivery (o : outcome) : option bool :=
  head (omap (λ ev, match ev with EvEmail _ _ _ ok => Some ok | _ => None end) (trace o)).

(** The mode tag of the message a run handed to the transport. *)
Definition sent_mode (o : outcome) : option string :=
  head (omap (λ ev, match ev with EvEmail _ tag _ _ => Some tag | _ => None end) (trace o)).

(** The report a run built and handed to [_write_csv]. *)
Definition report (o : outcome) : list csv_row :=
  default [] (head (omap (λ ev, match ev with EvWriteCsv rows _ => Some rows | _ => None end)
                     (trace o))).

(** The calls of [save_state] a run made. *)
Definition state_writes (o : outcome) : list (gmap string entry) :=
  omap (λ ev, match ev with EvSaveState st _ => Some st | _ => None end) (trace o).

(** ** Vocabulary of the properties *)

(** The run that follows [e] on the state file [e] left behind, the
    other inputs being the same. *)
Definition next_run (e : env) : env :=
  {| conf := conf e; DATA_FILE := DATA_FILE e;
     STATE_FILE := STATE_FILE_after (main e);
     now_utc := now_utc e;
     csv_writable := csv_writable e; smtp_accepts := smtp_accepts e;
     state_writable := state_writable e |}.


(** Condition (a): the timestamp branch. *)
Definition newer_instant (state : gmap string entry) (r : row) : Prop :=
  ∃ cur, _epoch_seconds_or_none (lastSuccessfulBackupTimestamp r) = Some cur ∧
         (state !! aid_of r = None ∨
          state !! aid_of r ≫= ts = None ∨
          ∃ t1, state !! aid_of r ≫= ts = Some t1 ∧ t1 < cur).

(** Condition (b) on the status the script compares, trimmed of the
    whitespace around it. *)
Definition status_changed (state : gmap string entry) (r : row) : Prop :=
  current_status_of r ≠ "" ∧
  current_status_of r ≠ or_empty (state !! aid_of r ≫= status).


(** ** The specification's wording, where the script departs from it *)







(** ** Sample runs *)

(** A parser that rejects every string: the sample runs use numeric
    timestamps only, which never reach the ISO branch. *)
Definition no_iso : string -> option instant := λ _, None.

Definition asset (id : string) (st : option string) (t : raw_ts) : row :=
  {| Organization := Some "Acme"; AssetId := Some id; AssetName := Some id;
     Status := st; lastSuccessfulBackupTimestamp := t |}.

(** The options of a live deployment: real sends, all rows, seeding on. *)
Definition live_options : config :=
  {| DRY_RUN := false; SAMPLE_COUNT := 0; FIRST_RUN_FULL := true |}.

(** 2023-11-14T22:13:20Z, outside the daily window, and
    2023-11-14T21:13:20Z, inside it. *)
Definition at_22h : instant := 1700000000000000.
Definition at_21h : instant := 1699996400000000.

(** A run whose SMTP session raises: one asset with a newer backup, a
    state that knows the older one. *)
Definition smtp_down : env :=
  {| conf := live_options;
     DATA_FILE := DataRows [asset "A1" (Some "Online") (TsInt 1699990000)];
     STATE_FILE := StateDict {[ "A1" := {| ts := Some 1699900000; status := Some "Online" |} ]};
     now_utc := at_22h;
     csv_writable := true; smtp_accepts := false; state_writable := true |}.

(** An incremental run that finds the asset as the state has it. *)
Definition nothing_new : env :=
  {| conf := live_options;
     DATA_FILE := DataRows [asset "A1" (Some "Online") (TsInt 1699990000)];
     STATE_FILE := StateDict {[ "A1" := {| ts := Some 1699990000; status := Some "Online" |} ]};
     now_utc := at_22h;
     csv_writable := true; smtp_accepts := true; state_writable := true |}.

(** A fresh deployment with the seed switched off. *)
Definition seed_off : env :=
  {| conf := {| DRY_RUN := true; SAMPLE_COUNT := 0; FIRST_RUN_FULL := false |};
     DATA_FILE := DataRows [asset "A1" (Some "Online") (TsInt 1699990000)];
     STATE_FILE := StateMissing;
     now_utc := at_22h;
     csv_writable := true; smtp_accepts := true; state_writable := true |}.



(** A state that already holds the asset A1 with this instant and status. *)
Definition known_A1 : gmap string entry :=
  {[ "A1" := {| ts := Some 1699990000; status := Some "Online" |} ]}.


(** ** Further vocabulary and sample runs *)

(** The live run with the same inputs and a transport that accepts. *)
Definition as_live_accepting (e : env) : env :=
  {| conf := {| DRY_RUN := false; SAMPLE_COUNT := SAMPLE_COUNT (conf e);
                FIRST_RUN_FULL := FIRST_RUN_FULL (conf e) |};
     DATA_FILE := DATA_FILE e;
     STATE_FILE := STATE_FILE e;
     now_utc := now_utc e;
     csv_writable := csv_writable e; smtp_accepts := true;
     state_writable := state_writable e |}.

(** The branch of [main] that skips the run: no state and the seed off. *)
Definition seed_skipped (e : env) : bool :=
  initial_run (load_state (STATE_FILE e)) && negb (FIRST_RUN_FULL (conf e)).

(** A dry run of the script as shipped: it simulates the send. *)
Definition dry_run_sample : env :=
  {| conf := {| DRY_RUN := true; SAMPLE_COUNT := 0; FIRST_RUN_FULL := true |};
     DATA_FILE := DataRows [asset "A1" (Some "Online") (TsInt 1699990000);
                            asset "A2" (Some "Offline") TsNone];
     STATE_FILE := StateDict {[ "A1" := {| ts := Some 1699900000; status := Some "Online" |} ]};
     now_utc := at_22h;
     csv_writable := true; smtp_accepts := false; state_writable := true |}.


(** The run that follows [e] at the instant [now'], on the state file
    [e] left behind and the same data. *)
Definition rerun_at (e : env) (now' : instant) : env :=
  {| conf := conf e; DATA_FILE := DATA_FILE e;
     STATE_FILE := STATE_FILE_after (main e);
     now_utc := now';
     csv_writable := csv_writable e; smtp_accepts := smtp_accepts e;
     state_writable := state_writable e |}.

(** A live incremental run, accepted by the transport: A1 is as the
    state has it, A2 is new and reports a status only. *)
Definition mixed_run : env :=
  {| conf := live_options;
     DATA_FILE := DataRows [asset "A1" (Some "Online") (TsInt 1699990000);
                            asset "A2" (Some "Offline") TsNone];
     STATE_FILE := StateDict {[ "A1" := {| ts := Some 1699990000; status := Some "Online" |} ]};
     now_utc := at_22h;
     csv_writable := true; smtp_accepts := true; state_writable := true |}.

(** A run on a data file that holds the empty list. *)
Definition empty_feed : env :=
  {| conf := live_options;
     DATA_FILE := DataRows [];
     STATE_FILE := StateDict {[ "A1" := {| ts := Some 1699990000; status := Some "Online" |} ]};
     now_utc := at_21h;
     csv_writable := true; smtp_accepts := true; state_writable := true |}.

(** *** The remaining helper of the script *)

(** [[A-Za-z0-9]] on one character. *)
Definition is_alnum (c : ascii) : bool :=
  let n := N_of_ascii c in
  ((48 <=? n) && (n <=? 57) || (65 <=? n) && (n <=? 90) || (97 <=? n) && (n <=? 122))%N.

(** [re.sub(r"[^A-Za-z0-9]", "", s)] *)
Fixpoint remove_non_alnum (s : string) : string :=
  match s with
  | EmptyString => EmptyString
  | String c s' => if is_alnum c then String c (remove_non_alnum s') else remove_non_alnum s'
  end.

(** [_sanitize_org_name(org_name)], on a string or [None]. *)
Definition _sanitize_org_name (org_name : option string) : string :=
  match org_name with
  | Some org_name =>
      if negb (PyStr.truthy org_name) then "Unassigned"
      else
        let s := PyStr.strip org_name in
        let sanitized := remove_non_alnum s in
        if PyStr.truthy sanitized then sanitized else "Unassigned"
  | None => "Unassigned"
  end.

Fixpoint all_alnum (s : string) : bool :=
  match s with
  | EmptyString => true
  | String c s' => is_alnum c && all_alnum s'
  end.

(** No statuses of the state are blank or padded: each is what
    [str.strip] returns on a string with something in it. *)
Definition statuses_trimmed (state : gmap string entry) : Prop :=
  ∀ k en s, state !! k = Some en → status en = Some s → s ≠ "" ∧ PyStr.strip s = s.

(** *** The table printer of [API.py] *)

(** [c * n] on a one-character string. *)
Fixpoint repeat_char (c : ascii) (n : nat) : string :=
  match n with
  | O => EmptyString
  | S n' => String c (repeat_char c n')
  end.

(** [s.ljust(width)]: blanks to the right up to [width], nothing when
    the string is that long already. *)
Definition ljust (s : string) (width : nat) : string :=
  (s ++ repeat_char " " (width - String.length s))%string.

(** [sep.join(parts)] *)
Fixpoint join (sep : string) (parts : list string) : string :=
  match parts with
  | [] => EmptyString
  | [p] => p
  | p :: rest => (p ++ sep ++ join sep rest)%string
  end.

(** A row as [format_table] reads it: [row.get(col)], a string or [None]. *)
Definition table_row := string → option string.

(** ["" if row.get(col) is None else str(row.get(col))] *)
Definition cell (row : table_row) (col : string) : string := or_empty (row col).

(** [widths[col]], on a key the dictionary holds. *)
Definition width_at (widths : gmap string nat) (col : string) : nat :=
  default 0%nat (widths !! col).

(** [{col: len(col) for col in headers}] *)
Definition header_widths (headers : list string) : gmap string nat :=
  foldl (λ widths col, <[col := String.length col]> widths) ∅ headers.

(** The inner loop of the width pass, on one row. *)
Definition widen (headers : list string) (widths : gmap string nat) (row : table_row)
    : gmap string nat :=
  foldl (λ widths col,
           <[col := Nat.max (width_at widths col) (String.length (cell row col))]> widths)
        widths headers.

(** The column widths after the width pass. *)
Definition column_widths (rows : list table_row) (headers : list string)
    : gmap string nat :=
  foldl (widen headers) (header_widths headers) rows.

(** The lines [format_table] joins: the header, the underline, one line
    per row. *)
Definition table_lines (rows : list table_row) (columns : list string) : list string :=
  let headers := columns in
  let widths := column_widths rows headers in
  let sep := "  " in
  let header_line := join sep ((λ col, ljust col (width_at widths col)) <$> headers) in
  let underline := join sep ((λ col, repeat_char "-" (width_at widths col)) <$> headers) in
  let data_lines :=
    (λ row, join sep ((λ col, ljust (cell row col) (width_at widths col)) <$> headers))
      <$> rows in
  [header_line; underline] ++ data_lines.

(** [format_table(rows, columns)] *)
Definition format_table (rows : list table_row) (columns : list string) : string :=
  join (String "010" "") (table_lines rows columns).

(** *** The fetcher, [API.py] *)

(** One element of the asset list the inventory service returns, read
    through [a.get]: text or [null], and the untyped timestamp. *)
Record api_asset := {
  customerName : option string;
  asset_id : option string;
  asset_name : option string;
  asset_status : option string;
  asset_timestamp : raw_ts }.

(** [str(raw_ts)] on a float is the shortest digits that read back as
    the same float: Python's own printer. *)
Variable float_repr : Q → string.

(** [str(raw_ts)] *)
Definition str_of (raw_ts : raw_ts) : string :=
  match raw_ts with
  | TsNone => "None"
  | TsInt n => pretty n
  | TsFloat x => float_repr x
  | TsStr s => s
  end.

(** A row as [API.py] writes it: the five keys the notifier reads and
    the display copy of the timestamp. *)
Record api_row := {
  fields : row;
  LastSuccessfulBackup : string }.

(** One turn of the loop of [normalize_assets]. *)
Definition normalize_asset (a : api_asset) : api_row :=
  let org :=
    match customerName a with
    | Some s => if PyStr.truthy s then s else "Unassigned"
    | None => "Unassigned"
    end in
  let raw_ts := asset_timestamp a in
  let last_backup_display :=
    match raw_ts with
    | TsNone => ""
    | _ => str_of raw_ts
    end in
  {| fields := {| Organization := Some org;
                  AssetId := asset_id a;
                  AssetName := asset_name a;
                  Status := asset_status a;
                  lastSuccessfulBackupTimestamp := raw_ts |};
     LastSuccessfulBackup := last_backup_display |}.

Definition normalize_assets (asset_list : list api_asset) : list api_row :=
  map normalize_asset asset_list.

(** Everything a run of [API.py] reads from outside: the token and the
    asset list the two requests give, whether the rows file can be
    written, whether the notifier script is there, and what the notifier
    reads besides the rows file. *)
Record fetch_env := {
  token : option string;
  asset_list : list api_asset;
  rows_writable : bool;
  notifier_exists : bool;
  notifier_inputs : env }.

Record fetch_outcome := {
  api_exit_code : Z;
  rows_saved : option (list api_row);
  notifier_run : option outcome }.

(** The notifier's inputs once [assets_rows.json] holds [rows]. *)
Definition with_rows (e : env) (rows : list api_row) : env :=
  {| conf := conf e;
     DATA_FILE := DataRows (fields <$> rows);
     STATE_FILE := STATE_FILE e;
     now_utc := now_utc e;
     csv_writable := csv_writable e; smtp_accepts := smtp_accepts e;
     state_writable := state_writable e |}.

(** [main()] of [API.py].  A missing token or an empty asset list ends
    the process with [sys.exit(1)]; a rows file that cannot be written
    raises out of [main]; the notifier's exit code is printed only. *)
Definition api_main (f : fetch_env) : fetch_outcome :=
  let stop := {| api_exit_code := 1; rows_saved := None; notifier_run := None |} in
  match token f with
  | None => stop
  | Some t =>
      if negb (PyStr.truthy t) then stop
      else
        match asset_list f with
        | [] => stop
        | _ =>
            let rows := normalize_assets (asset_list f) in
            if negb (rows_writable f) then stop
            else if negb (notifier_exists f) then
              {| api_exit_code := 0; rows_saved := Some rows; notifier_run := None |}
            else
              {| api_exit_code := 0; rows_saved := Some rows;
                 notifier_run := Some (main (with_rows (notifier_inputs f) rows)) |}
        end
  end.



(** *** Sorting and grouping in [API.py] *)

(** The sort key of [sort_and_group]:
    [(r["Organization"] or "", r["AssetName"] or "")]. *)
Definition sort_key (r : api_row) : string * string :=
  (or_empty (Organization (fields r)), or_empty (AssetName (fields r))).

(** [k1 <= k2] on two such tuples: the names decide between equal
    organizations, the organizations otherwise; strings compare
    character by character. *)
Definition key_leb (k1 k2 : string * string) : bool :=
  if String.eqb k1.1 k2.1 then String.leb k1.2 k2.2 else String.leb k1.1 k2.1.

Definition row_le (a b : api_row) : Prop := key_leb (sort_key a) (sort_key b) = true.

(** Insertion before the first row that does not sort before [r]. *)
Fixpoint insert_sorted (r : api_row) (l : list api_row) : list api_row :=
  match l with
  | [] => [r]
  | x :: l' =>
      if key_leb (sort_key r) (sort_key x) then r :: l else x :: insert_sorted r l'
  end.

(** [sorted(rows, key=...)].  Python's sort is stable, which fixes its
    result; inserting the rows from the last to the first gives it. *)
Definition sorted_rows (rows : list api_row) : list api_row :=
  foldr insert_sorted [] rows.

(** [grouped.setdefault(org, []).append(r)] on the ordered dictionary,
    kept as the list of its items in insertion order. *)
Fixpoint group_append (grouped : list (option string * list api_row))
    (org : option string) (r : api_row) : list (option string * list api_row) :=
  match grouped with
  | [] => [(org, [r])]
  | (k, rs) :: rest =>
      if decide (k = org) then (k, rs ++ [r]) :: rest
      else (k, rs) :: group_append rest org r
  end.

(** The grouping loop over the sorted rows. *)
Definition group_rows (rows_sorted : list api_row) : list (option string * list api_row) :=
  foldl (λ grouped r, group_append grouped (Organization (fields r)) r) [] rows_sorted.

Definition sort_and_group (rows : list api_row)
    : list api_row * list (option string * list api_row) :=
  let rows_sorted := sorted_rows rows in
  (rows_sorted, group_rows rows_sorted).

(** [grouped[org]], the empty list for a key the dictionary lacks. *)
Fixpoint group_of (grouped : list (option string * list api_row)) (org : option string)
    : list api_row :=
  match grouped with
  | [] => []
  | (k, rs) :: rest => if decide (k = org) then rs else group_of rest org
  end.

(** *** Configuration, in both scripts *)

(** A value of [config.json], or a default written in the script.  Of
    an array or an object only its truth is kept: whether it has an
    element. *)
Inductive cfg_value :=
| CfgNone
| CfgBool (b : bool)
| CfgInt (n : Z)
| CfgFloat (x : Q)
| CfgStr (s : string)
| CfgContainer (non_empty : bool).

(** [cfg(name, default)]: the config file first, then the environment,
    whose values are strings, then the default. *)
Definition cfg (_config : gmap string cfg_value) (environ : gmap string string)
    (name : string) (default : cfg_value) : cfg_value :=
  match _config !! name with
  | Some v => v
  | None =>
      match environ !! name with
      | Some s => CfgStr s
      | None => default
      end
  end.

(** [bool(v)] *)
Definition cfg_truth (v : cfg_value) : bool :=
  match v with
  | CfgNone => false
  | CfgBool b => b
  | CfgInt n => negb (n =? 0)
  | CfgFloat x => negb (Qeq_bool x 0)
  | CfgStr s => PyStr.truthy s
  | CfgContainer non_empty => non_empty
  end.

(** [SMTP_USE_STARTTLS = bool(cfg("SMTP_USE_STARTTLS", True))] *)
Definition SMTP_USE_STARTTLS (_config : gmap string cfg_value)
    (environ : gmap string string) : bool :=
  cfg_truth (cfg _config environ "SMTP_USE_STARTTLS" (CfgBool true)).

(** [SMTP_USE_SSL = bool(cfg("SMTP_USE_SSL", False))] *)
Definition SMTP_USE_SSL (_config : gmap string cfg_value)
    (environ : gmap string string) : bool :=
  cfg_truth (cfg _config environ "SMTP_USE_SSL" (CfgBool false)).


(** ** Properties of a run *)

(** Every run that reaches the transport has this shape. *)
Lemma main_delivery_inv (e : env) (ok : bool) :
  delivery (main e) = Some ok →
  ∃ rows csv_rows changed,
    DATA_FILE e = DataRows rows ∧
    select (is_full (conf e) (now_utc e) (load_state (STATE_FILE e))) (now_utc e)
      (load_state (STATE_FILE e)) (to_process_of (conf e) rows) = (csv_rows, changed) ∧
    csv_rows ≠ [] ∧
    ok = (if DRY_RUN (conf e) then true else smtp_accepts e) ∧
    exit_code (main e) = 0 ∧
    STATE_FILE_after (main e) =
      (if ok then
         save_state (state_writable e)
           (updated_state (is_full (conf e) (now_utc e) (load_state (STATE_FILE e)))
              (load_state (STATE_FILE e)) (to_process_of (conf e) rows) changed)
           (STATE_FILE e)
       else STATE_FILE e) ∧
    state_writes (main e) =
      (if ok then
         [updated_state (is_full (conf e) (now_utc e) (load_state (STATE_FILE e)))
            (load_state (STATE_FILE e)) (to_process_of (conf e) rows) changed]
       else []) ∧
    report (main e) = csv_rows ∧
    sent_mode (main e) =
      Some (subject_type_of (is_full (conf e) (now_utc e) (load_state (STATE_FILE e)))).
Proof.
  unfold main.
  destruct (DATA_FILE e) as [| | |rows]; try discriminate.
  destruct (initial_run _ && negb _); [discriminate|].
  destruct (select _ _ _ _) as [csv_rows changed] eqn:Hsel.
  destruct csv_rows as [|c csv_rows]; [discriminate|].
  destruct (csv_writable e); simpl; [|discriminate].
  destruct (if DRY_RUN (conf e) then true else smtp_accepts e) eqn:Hok;
    cbn; intros [= <-]; exists rows, (c :: csv_rows), changed; done.
Qed.

(** C1.  When the delivery attempt of a run fails, the run leaves the
    state file exactly as it found it and never calls [save_state]. *)
Theorem failed_dispatch_leaves_state (e : env) :
  delivery (main e) = Some false →
  STATE_FILE_after (main e) = STATE_FILE e ∧ state_writes (main e) = [].
Proof.
  intros Hfail.
  destruct (main_delivery_inv e false Hfail)
    as (rows & csv_rows & changed & _ & _ & _ & _ & _ & Hfile & Hwrites & _).
  done.
Qed.

(** C3.  A run whose delivery attempt fails still falls through to the
    final [return 0]. *)
Theorem failed_dispatch_exit_code (e : env) :
  delivery (main e) = Some false → exit_code (main e) = 0.
Proof.
  intros Hfail.
  destruct (main_delivery_inv e false Hfail)
    as (rows & csv_rows & changed & _ & _ & _ & _ & Hexit & _).
  exact Hexit.
Qed.

(** C8.  When the run reaches reconciliation and no row qualifies, it
    attempts no delivery, makes no write at all, leaves the state file as
    it was and exits with code 0. *)
Theorem empty_report_is_noop (e : env) (rows : list row) :
  DATA_FILE e = DataRows rows →
  initial_run (load_state (STATE_FILE e)) && negb (FIRST_RUN_FULL (conf e)) = false →
  (select (is_full (conf e) (now_utc e) (load_state (STATE_FILE e))) (now_utc e)
     (load_state (STATE_FILE e)) (to_process_of (conf e) rows)).1 = [] →
  exit_code (main e) = 0 ∧
  delivery (main e) = None ∧
  trace (main e) = [] ∧
  state_writes (main e) = [] ∧
  STATE_FILE_after (main e) = STATE_FILE e.
Proof.
  intros Hdata Hseed Hsel. unfold delivery, state_writes, main.
  rewrite Hdata, Hseed.
  destruct (select _ _ _ _) as [csv_rows changed]. simpl in Hsel. subst csv_rows.
  done.
Qed.

(** ** The run mode *)

Lemma hour_window (now : instant) :
  hour now = 21 ↔ 75600000000 ≤ now mod 86400000000 < 79200000000.
Proof.
  unfold hour.
  replace 86400000000 with (3600000000 * 24) by reflexivity.
  rewrite Z.rem_mul_r by lia.
  pose proof (Z.mod_pos_bound now 3600000000 ltac:(lia)).
  pose proof (Z.mod_pos_bound (now / 3600000000) 24 ltac:(lia)).
  lia.
Qed.

Lemma sent_mode_delivery (o : outcome) (tag : string) :
  sent_mode o = Some tag → ∃ ok, delivery o = Some ok.
Proof.
  unfold sent_mode, delivery.
  induction (trace o) as [|[rows ok|sim tag' rows ok|st ok] t IH]; simpl; eauto.
  discriminate.
Qed.

(** C6.  With a non-empty prior state the run is FULL exactly in hour 21
    UTC, that is from 21:00:00 to 21:59:59.999999; with an empty prior
    state and seeding on it is FULL at any hour; the decision reads the
    clock and whether the state is empty, nothing else, and it is the
    mode tag of the message the run sends. *)
Theorem run_mode_decision (e : env) :
  (load_state (STATE_FILE e) ≠ ∅ →
     (is_full (conf e) (now_utc e) (load_state (STATE_FILE e)) = true ↔ hour (now_utc e) = 21)) ∧
  (hour (now_utc e) = 21 ↔ 75600000000 ≤ now_utc e mod 86400000000 < 79200000000) ∧
  (load_state (STATE_FILE e) = ∅ → FIRST_RUN_FULL (conf e) = true →
     is_full (conf e) (now_utc e) (load_state (STATE_FILE e)) = true) ∧
  (∀ state' : gmap string entry,
     (state' = ∅ ↔ load_state (STATE_FILE e) = ∅) →
     is_full (conf e) (now_utc e) state' =
     is_full (conf e) (now_utc e) (load_state (STATE_FILE e))) ∧
  (∀ tag, sent_mode (main e) = Some tag →
     tag = subject_type_of (is_full (conf e) (now_utc e) (load_state (STATE_FILE e)))).
Proof.
  unfold is_full, initial_run, is_daily_full_run.
  split; [|split; [|split; [|split]]].
  - intros Hne. rewrite bool_decide_eq_false_2 by done. simpl. lia.
  - apply hour_window.
  - intros -> ->. reflexivity.
  - intros state' Hiff.
    destruct (decide (load_state (STATE_FILE e) = ∅)) as [Hempty|Hne].
    + rewrite Hempty, (proj2 Hiff Hempty). reflexivity.
    + rewrite !bool_decide_eq_false_2; [done|done|]. intros H'. by apply Hne, Hiff.
  - intros tag Htag.
    destruct (sent_mode_delivery _ _ Htag) as [ok Hdel].
    destruct (main_delivery_inv e ok Hdel)
      as (rows & csv_rows & changed & _ & _ & _ & _ & _ & _ & _ & _ & Hmode).
    unfold is_full, initial_run, is_daily_full_run in Hmode. congruence.
Qed.

(** ** The disabled seed *)

(** C7.  With the seed switched off and no prior state, the run sends
    nothing, exits 0 and hands the empty mapping to [save_state]; the
    state it leaves is again read as empty, so the run that follows is in
    the same position and again sends nothing. *)
Theorem disabled_seed_stays_first_run (e : env) (rows : list row) :
  DATA_FILE e = DataRows rows →
  FIRST_RUN_FULL (conf e) = false →
  initial_run (load_state (STATE_FILE e)) = true →
  exit_code (main e) = 0 ∧
  delivery (main e) = None ∧
  state_writes (main e) = [∅] ∧
  initial_run (load_state (STATE_FILE_after (main e))) = true ∧
  delivery (main (next_run e)) = None.
Proof.
  intros Hdata Hseed Hinit.
  assert (Hrun : ∀ e', DATA_FILE e' = DataRows rows → FIRST_RUN_FULL (conf e') = false →
            initial_run (load_state (STATE_FILE e')) = true →
            main e' = {| exit_code := 0;
                         STATE_FILE_after := save_state (state_writable e') ∅ (STATE_FILE e');
                         trace := [EvSaveState ∅ (state_writable e')] |}).
  { intros e' Hd Hs Hi. unfold main. rewrite Hd, Hs, Hi. reflexivity. }
  assert (Hafter : initial_run (load_state (STATE_FILE_after (main e))) = true).
  { rewrite (Hrun e Hdata Hseed Hinit). simpl. unfold save_state.
    destruct (state_writable e); [reflexivity | exact Hinit]. }
  rewrite (Hrun (next_run e)); [|done..].
  rewrite (Hrun e Hdata Hseed Hinit) in *. done.
Qed.

(** ** The committed state *)

(** The upsert loop of a FULL run, from any starting mapping. *)
Lemma full_update_lookup (l : list row) (st : gmap string entry) (k : string) :
  foldl (λ new_state r, <[aid_of r := entry_of r]> new_state) st l !! k =
  match last (List.filter (λ r, bool_decide (aid_of r = k)) l) with
  | Some r => Some (entry_of r)
  | None => st !! k
  end.
Proof.
  revert st. induction l as [|r l IH]; intros st; simpl; [done|].
  rewrite IH. case_bool_decide as Hk; simpl.
  - destruct (List.filter _ l) as [|r' l'] eqn:Hl; simpl.
    + subst k. by rewrite lookup_insert_eq.
    + destruct (last (r' :: l')) eqn:Hlast; [done|].
      apply last_None in Hlast. discriminate.
  - destruct (last (List.filter _ l)); [done|]. by rewrite lookup_insert_ne.
Qed.

Lemma full_update_dom (l : list row) (st : gmap string entry) :
  dom (foldl (λ new_state r, <[aid_of r := entry_of r]> new_state) st l) =
  dom st ∪ list_to_set (aid_of <$> l).
Proof.
  revert st. induction l as [|r l IH]; intros st; simpl.
  - by rewrite (right_id_L ∅ (∪)).
  - rewrite IH, dom_insert_L, (comm_L (∪) {[aid_of r]} (dom st)).
    by rewrite <- (assoc_L (∪)).
Qed.

Lemma last_filter_elem {A} (f : A → bool) (l : list A) (x : A) :
  last (List.filter f l) = Some x → x ∈ l ∧ f x = true.
Proof.
  intros Hlast. apply last_Some in Hlast as [l' Hl'].
  assert (Hin : In x (List.filter f l)) by (rewrite Hl'; apply in_or_app; right; by left).
  apply filter_In in Hin as [Hin Hf]. by rewrite list_elem_of_In.
Qed.



(** ** The reconciliation loops *)

Lemma changed_ids_full (l : list row) (acc : list string) :
  foldl (λ changed_asset_ids r, changed_asset_ids ++ [aid_of r]) acc l =
  acc ++ (aid_of <$> l).
Proof.
  revert acc. induction l as [|r l IH]; intros acc; simpl.
  - by rewrite app_nil_r.
  - by rewrite IH, <- app_assoc.
Qed.

(** The incremental loop keeps, in order, the rows whose [send_flag] is set. *)
Lemma incremental_loop (now : instant) (st : gmap string entry) (l : list row)
    (acc : list csv_row * list string) :
  foldl (incremental_step now st) acc l =
  (acc.1 ++ (csv_row_of now <$> List.filter (send_flag st) l),
   acc.2 ++ (aid_of <$> List.filter (send_flag st) l)).
Proof.
  revert acc. induction l as [|r l IH]; intros [csv ids]; simpl.
  - by rewrite !app_nil_r.
  - rewrite IH. destruct (send_flag st r); simpl; [|done].
    by rewrite <- !app_assoc.
Qed.

Lemma filter_sublist_of {A} (f : A → bool) (l : list A) : List.filter f l `sublist_of` l.
Proof.
  induction l as [|x l IH]; simpl; [constructor|].
  destruct (f x); by constructor.
Qed.

(** Whatever the mode, the report is built from processed rows, in order. *)
Lemma select_sublist (full : bool) (now : instant) (st : gmap string entry) (l : list row) :
  ∃ kept, kept `sublist_of` l ∧
          select full now st l = (_build_csv_rows now kept, aid_of <$> kept).
Proof.
  destruct full; simpl.
  - exists l. split; [done|]. by rewrite changed_ids_full.
  - exists (List.filter (send_flag st) l). split; [apply filter_sublist_of|].
    by rewrite incremental_loop.
Qed.




(** ** The sample limit *)


(** ** The incremental send decision *)

Lemma if_same_true (b : bool) : (if b then true else false) = b.
Proof. by destruct b. Qed.

Lemma truthy_true (s : string) : PyStr.truthy s = true ↔ s ≠ "".
Proof. destruct s; simpl; split; congruence. Qed.

Lemma send_flag_iff (state : gmap string entry) (r : row) :
  send_flag state r = true ↔ newer_instant state r ∨ status_changed state r.
Proof.
  unfold send_flag, newer_instant, status_changed.
  destruct (_epoch_seconds_or_none _) as [cur|] eqn:Hcur.
  - destruct (state !! aid_of r) as [en|] eqn:Hprior; simpl.
    + destruct (ts en) as [t1|] eqn:Hts.
      * destruct (Z.ltb_spec t1 cur) as [Hlt|Hge]; simpl.
        -- split; [|done]. intros _. left. exists cur. eauto 6.
        -- rewrite if_same_true, andb_true_iff, negb_true_iff, truthy_true, String.eqb_neq.
           split; [by right|]. intros [(cur' & [= <-] & [?|[?|(t1' & [= <-] & ?)]])|H]; [done|done|lia|done].
      * split; [|done]. intros _. left. exists cur. eauto.
    + split; [|done]. intros _. left. exists cur. eauto.
  - simpl. rewrite if_same_true, andb_true_iff, negb_true_iff, truthy_true, String.eqb_neq.
    split; [by right|]. by intros [(cur' & [=] & _)|H].
Qed.


(** ** The status classifier *)

Lemma append_cons (c : ascii) (a b : string) :
  (String c a ++ b)%string = String c (a ++ b)%string.
Proof. reflexivity. Qed.







(** ** The timestamp normalizer *)

Lemma fromtimestamp_seconds (n : Z) :
  fromtimestamp (inject_Z n) = of_microseconds (n * 1000000).
Proof.
  unfold fromtimestamp. f_equal.
  unfold round_half_even, inject_Z. simpl.
  rewrite Z.div_1_r, Z.mod_1_r. reflexivity.
Qed.

Lemma fromtimestamp_millis (n : Z) :
  fromtimestamp (inject_Z n / 1000) = of_microseconds (n * 1000).
Proof.
  unfold fromtimestamp. f_equal.
  unfold round_half_even, inject_Z, Qdiv, Qmult, Qinv. simpl.
  replace (n * 1 * 1000000) with (n * 1000 * 1000) by lia.
  rewrite Z.div_mul, Z.mod_mul by lia. reflexivity.
Qed.

Lemma gt_1e12_int (n : Z) : gt_1e12 (inject_Z n) = (1000000000000 <? n).
Proof.
  unfold gt_1e12, Qle_bool, inject_Z. simpl.
  rewrite Z.mul_1_r. destruct (Z.leb_spec n 1000000000000), (Z.ltb_spec 1000000000000 n);
    simpl; lia.
Qed.


Lemma rev_app_rev_app (s a b : string) :
  String.rev_app (String.rev_app s a) b = String.rev_app a (s ++ b)%string.
Proof.
  revert a. induction s as [|c s IH]; intros a; [done|].
  simpl. by rewrite IH.
Qed.

Lemma append_empty_r (s : string) : (s ++ "")%string = s.
Proof. induction s as [|c s IH]; [done|]. rewrite append_cons. by rewrite IH. Qed.

Lemma rev_involutive (s : string) : String.rev (String.rev s) = s.
Proof. unfold String.rev. rewrite rev_app_rev_app. simpl. apply append_empty_r. Qed.






(** ** More on one run *)

(** The three shapes of a run on a readable data file that is not
    skipped for want of a seed. *)
Lemma main_cases (e : env) (rows : list row) :
  DATA_FILE e = DataRows rows →
  seed_skipped e = false →
  let state := load_state (STATE_FILE e) in
  let full := is_full (conf e) (now_utc e) state in
  let to_process := to_process_of (conf e) rows in
  let csv_rows := (select full (now_utc e) state to_process).1 in
  let changed := (select full (now_utc e) state to_process).2 in
  let success := if DRY_RUN (conf e) then true else smtp_accepts e in
  main e =
    if decide (csv_rows = []) then
      {| exit_code := 0; STATE_FILE_after := STATE_FILE e; trace := [] |}
    else if negb (csv_writable e) then
      {| exit_code := 1; STATE_FILE_after := STATE_FILE e;
         trace := [EvWriteCsv csv_rows false] |}
    else if success then
      {| exit_code := 0;
         STATE_FILE_after :=
           save_state (state_writable e) (updated_state full state to_process changed)
             (STATE_FILE e);
         trace := [EvWriteCsv csv_rows true;
                   EvEmail (DRY_RUN (conf e)) (subject_type_of full) csv_rows true;
                   EvSaveState (updated_state full state to_process changed)
                     (state_writable e)] |}
    else
      {| exit_code := 0; STATE_FILE_after := STATE_FILE e;
         trace := [EvWriteCsv csv_rows true;
                   EvEmail (DRY_RUN (conf e)) (subject_type_of full) csv_rows false] |}.
Proof.
  unfold seed_skipped. intros Hdata Hseed. cbv zeta. unfold main.
  rewrite Hdata, Hseed.
  destruct (select _ _ _ _) as [csv_rows changed]. simpl.
  destruct csv_rows as [|c csv_rows]; [done|].
  rewrite decide_False by done.
  destruct (csv_writable e); simpl; [|done].
  by destruct (if DRY_RUN (conf e) then true else smtp_accepts e).
Qed.

Lemma main_seed_skipped (e : env) (rows : list row) :
  DATA_FILE e = DataRows rows →
  seed_skipped e = true →
  main e = {| exit_code := 0;
              STATE_FILE_after := save_state (state_writable e) ∅ (STATE_FILE e);
              trace := [EvSaveState ∅ (state_writable e)] |}.
Proof. unfold seed_skipped. intros Hdata Hseed. unfold main. by rewrite Hdata, Hseed. Qed.

Lemma main_no_data (e : env) :
  (∀ rows, DATA_FILE e ≠ DataRows rows) →
  main e = {| exit_code := 1; STATE_FILE_after := STATE_FILE e; trace := [] |}.
Proof. intros Hdata. unfold main. destruct (DATA_FILE e); try done. by destruct (Hdata rows). Qed.

(** Splitting a run into its branches. *)
Ltac run_cases e :=
  let rows := fresh "rows" in
  let Hdata := fresh "Hdata" in
  let Hseed := fresh "Hseed" in
  let Hnone := fresh "Hnone" in
  destruct (DATA_FILE e) as [| | |rows] eqn:Hdata;
  [ assert (Hnone : ∀ rows, DATA_FILE e ≠ DataRows rows) by (intros ?; congruence);
    rewrite (main_no_data e Hnone) ..
  | destruct (seed_skipped e) eqn:Hseed;
    [ rewrite (main_seed_skipped e rows Hdata Hseed)
    | rewrite (main_cases e rows Hdata Hseed); cbv zeta;
      case_decide; [| destruct (csv_writable e); simpl;
                      [destruct (if DRY_RUN (conf e) then true else smtp_accepts e)|] ] ] ].



(** X3.  A dry run never consults the transport and never fails to
    deliver: it exits, writes the state and builds the report exactly as
    the live run whose send is accepted. *)
Theorem dry_run_as_accepted_send (e : env) :
  DRY_RUN (conf e) = true →
  delivery (main e) ≠ Some false ∧
  exit_code (main e) = exit_code (main (as_live_accepting e)) ∧
  STATE_FILE_after (main e) = STATE_FILE_after (main (as_live_accepting e)) ∧
  state_writes (main e) = state_writes (main (as_live_accepting e)) ∧
  report (main e) = report (main (as_live_accepting e)) ∧
  delivery (main e) = delivery (main (as_live_accepting e)) ∧
  sent_mode (main e) = sent_mode (main (as_live_accepting e)).
Proof.
  intros Hdry. unfold delivery, state_writes, report, sent_mode, main. simpl.
  rewrite Hdry.
  destruct (DATA_FILE e) as [| | |rows]; try done.
  destruct (initial_run _ && negb _); [done|].
  destruct (select _ _ _ _) as [csv_rows changed].
  destruct csv_rows as [|c csv_rows]; [done|].
  by destruct (csv_writable e).
Qed.


(** X5.  With no row to process the run is a clean no-op in either
    mode: exit code 0, nothing written, nothing sent. *)
Theorem no_rows_is_noop (e : env) (rows : list row) :
  DATA_FILE e = DataRows rows →
  seed_skipped e = false →
  to_process_of (conf e) rows = [] →
  exit_code (main e) = 0 ∧ trace (main e) = [] ∧
  STATE_FILE_after (main e) = STATE_FILE e.
Proof.
  intros Hdata Hseed Hproc.
  rewrite (main_cases e rows Hdata Hseed). cbv zeta. rewrite Hproc.
  by destruct (is_full _ _ _).
Qed.

(** ** What a commit leaves behind *)

(** The incremental update loop is the upsert loop on the rows whose
    identifier was marked. *)
Lemma incremental_update_as_filter (l : list row) (st : gmap string entry)
    (id_set : gset string) :
  foldl (λ new_state r,
           if decide (aid_of r ∈ id_set)
           then <[aid_of r := entry_of r]> new_state
           else new_state) st l =
  foldl (λ new_state r, <[aid_of r := entry_of r]> new_state) st
    (List.filter (λ r, bool_decide (aid_of r ∈ id_set)) l).
Proof.
  revert st. induction l as [|r l IH]; intros st; simpl; [done|].
  rewrite IH. case_decide as Hin.
  - by rewrite bool_decide_eq_true_2.
  - by rewrite bool_decide_eq_false_2.
Qed.

Lemma filter_unique_key (P : row → bool) (l : list row) (r : row) :
  NoDup (aid_of <$> l) → r ∈ l →
  List.filter (λ r', bool_decide (aid_of r' = aid_of r)) (List.filter P l) =
  if P r then [r] else [].
Proof.
  induction l as [|x l IH]; intros Hnd Hin; [by apply elem_of_nil in Hin|].
  rewrite fmap_cons in Hnd. apply NoDup_cons in Hnd as [Hx Hnd].
  assert (Hrest : ∀ r', r' ∈ l → aid_of r' ≠ aid_of x).
  { intros r' Hr' Heq. apply Hx. rewrite <- Heq. apply list_elem_of_fmap. eauto. }
  assert (Hnone : List.filter (λ r', bool_decide (aid_of r' = aid_of x)) (List.filter P l) = []).
  { clear -Hrest. induction l as [|y l IH]; [done|]. simpl.
    assert (Hy : bool_decide (aid_of y = aid_of x) = false).
    { apply bool_decide_eq_false_2, Hrest. by left. }
    destruct (P y); simpl; rewrite ?Hy; apply IH; intros r' Hr'; apply Hrest; by right. }
  apply elem_of_cons in Hin as [->|Hin].
  - simpl. destruct (P x); simpl; [|exact Hnone].
    rewrite bool_decide_eq_true_2 by done. by rewrite Hnone.
  - simpl. assert (Hne : bool_decide (aid_of x = aid_of r) = false).
    { apply bool_decide_eq_false_2. intros Heq. by apply (Hrest r Hin). }
    destruct (P x); simpl; rewrite ?Hne; by apply IH.
Qed.

(** With distinct identifiers, an upsert loop over the selected rows
    leaves under each row's identifier that row's own entry, or what was
    there when the row is not selected. *)
Lemma update_lookup_unique (P : row → bool) (l : list row) (st : gmap string entry)
    (r : row) :
  NoDup (aid_of <$> l) → r ∈ l →
  foldl (λ new_state r, <[aid_of r := entry_of r]> new_state) st (List.filter P l)
    !! aid_of r =
  if P r then Some (entry_of r) else st !! aid_of r.
Proof.
  intros Hnd Hin. rewrite full_update_lookup, (filter_unique_key P l r Hnd Hin).
  by destruct (P r).
Qed.

Lemma marked_iff_flagged (st : gmap string entry) (l : list row) (r : row) :
  NoDup (aid_of <$> l) → r ∈ l →
  bool_decide (aid_of r ∈ (list_to_set (aid_of <$> List.filter (send_flag st) l) : gset string)) =
  send_flag st r.
Proof.
  intros Hnd Hin. destruct (send_flag st r) eqn:Hflag.
  - apply bool_decide_eq_true_2, elem_of_list_to_set, list_elem_of_fmap.
    exists r. split; [done|]. apply list_elem_of_In, filter_In.
    by rewrite <- list_elem_of_In.
  - apply bool_decide_eq_false_2. rewrite elem_of_list_to_set, list_elem_of_fmap.
    intros (r' & Heq & Hr'). apply list_elem_of_In, filter_In in Hr' as [Hr' Hflag'].
    apply list_elem_of_In in Hr'.
    assert (r' = r); [|congruence].
    apply list_elem_of_lookup in Hin as [i Hi]. apply list_elem_of_lookup in Hr' as [j Hj].
    assert (i = j); [|congruence].
    eapply NoDup_lookup; [exact Hnd| |]; rewrite list_lookup_fmap.
    + by rewrite Hi.
    + rewrite Hj. simpl. by rewrite Heq.
Qed.

Lemma filter_all {A} (l : list A) : List.filter (λ _, true) l = l.
Proof. induction l as [|x l IH]; simpl; congruence. Qed.

(** The state after either update loop, identifiers being distinct. *)
Lemma updated_state_lookup_unique (full : bool) (now : instant) (st : gmap string entry)
    (l : list row) (r : row) :
  NoDup (aid_of <$> l) → r ∈ l →
  updated_state full st l (select full now st l).2 !! aid_of r =
  if full || send_flag st r then Some (entry_of r) else st !! aid_of r.
Proof.
  intros Hnd Hin. unfold updated_state. destruct full; simpl.
  - rewrite <- (filter_all l) at 1.
    apply (update_lookup_unique (λ _, true) l st r Hnd Hin).
  - rewrite incremental_loop. simpl. rewrite incremental_update_as_filter.
    rewrite (update_lookup_unique _ l st r Hnd Hin).
    by rewrite (marked_iff_flagged st l r Hnd Hin).
Qed.

Lemma send_flag_ext (st st' : gmap string entry) (r : row) :
  st !! aid_of r = st' !! aid_of r → send_flag st r = send_flag st' r.
Proof. intros Heq. unfold send_flag. by rewrite Heq. Qed.

(** A row is not flagged against its own entry. *)
Lemma send_flag_own_entry (st : gmap string entry) (r : row) :
  st !! aid_of r = Some (entry_of r) → send_flag st r = false.
Proof.
  intros Hown. unfold send_flag. rewrite Hown. simpl.
  destruct (_epoch_seconds_or_none _) as [cur|]; simpl.
  - rewrite Z.ltb_irrefl. simpl.
    destruct (PyStr.truthy (current_status_of r)); simpl; [|done].
    by rewrite String.eqb_refl.
  - destruct (PyStr.truthy (current_status_of r)); simpl; [|done].
    by rewrite String.eqb_refl.
Qed.

(** After either update loop no processed row is flagged any more,
    identifiers being distinct. *)
Lemma rows_settled (full : bool) (now : instant) (st : gmap string entry)
    (l : list row) (r : row) :
  NoDup (aid_of <$> l) → r ∈ l →
  send_flag (updated_state full st l (select full now st l).2) r = false.
Proof.
  intros Hnd Hin.
  pose proof (updated_state_lookup_unique full now st l r Hnd Hin) as Hlook.
  destruct (full || send_flag st r) eqn:Hsel.
  - by apply send_flag_own_entry.
  - apply orb_false_iff in Hsel as [_ Hflag].
    by rewrite (send_flag_ext _ st r Hlook).
Qed.

Lemma filter_none {A} (f : A → bool) (l : list A) :
  (∀ x, x ∈ l → f x = false) → List.filter f l = [].
Proof.
  induction l as [|x l IH]; intros Hf; [done|]. simpl.
  rewrite (Hf x) by by left. apply IH. intros y Hy. apply Hf. by right.
Qed.

(** The keys after either update loop. *)
Lemma updated_state_dom (full : bool) (st : gmap string entry) (l : list row)
    (changed : list string) :
  dom (updated_state full st l changed) =
  dom st ∪ (if full then list_to_set (aid_of <$> l)
            else list_to_set (aid_of <$> l) ∩ list_to_set changed).
Proof.
  unfold updated_state. destruct full; [apply full_update_dom|].
  rewrite incremental_update_as_filter, full_update_dom. f_equal.
  apply set_eq. intros k.
  rewrite elem_of_intersection, !elem_of_list_to_set, !list_elem_of_fmap. split.
  - intros (r & -> & Hr). apply list_elem_of_In, filter_In in Hr as [Hr Hin].
    apply bool_decide_eq_true in Hin. rewrite elem_of_list_to_set in Hin.
    split; [|done]. exists r. by rewrite list_elem_of_In.
  - intros [(r & -> & Hr) Hin]. exists r. split; [done|].
    apply list_elem_of_In, filter_In. rewrite <- list_elem_of_In. split; [done|].
    apply bool_decide_eq_true_2. by rewrite elem_of_list_to_set.
Qed.


(** An update loop that follows a non-empty report leaves a state that
    is not empty. *)
Lemma updated_state_nonempty (full : bool) (now : instant) (st : gmap string entry)
    (l : list row) :
  (select full now st l).1 ≠ [] →
  updated_state full st l (select full now st l).2 ≠ ∅.
Proof.
  intros Hne Hempty. apply (f_equal dom) in Hempty.
  rewrite updated_state_dom, dom_empty_L in Hempty.
  apply empty_union_L in Hempty as [_ Hempty].
  destruct (select_sublist full now st l) as (kept & Hsub & Hsel).
  rewrite Hsel in Hne, Hempty. simpl in Hne, Hempty.
  destruct kept as [|r kept]; [done|].
  assert (Hr : aid_of r ∈ aid_of <$> l).
  { apply list_elem_of_fmap. exists r. split; [done|].
    eapply elem_of_sublist; [|exact Hsub]. by left. }
  assert (Hin : aid_of r ∈ (∅ : gset string)); [|by apply elem_of_empty in Hin].
  rewrite <- Hempty. destruct full.
  - by rewrite elem_of_list_to_set.
  - rewrite elem_of_intersection, !elem_of_list_to_set. split; [done|].
    rewrite fmap_cons. by left.
Qed.

(** What a delivering run found and did. *)
Lemma delivered_run (e : env) :
  delivery (main e) = Some true →
  ∃ rows,
    DATA_FILE e = DataRows rows ∧
    seed_skipped e = false ∧
    (select (is_full (conf e) (now_utc e) (load_state (STATE_FILE e))) (now_utc e)
       (load_state (STATE_FILE e)) (to_process_of (conf e) rows)).1 ≠ [] ∧
    STATE_FILE_after (main e) =
      save_state (state_writable e)
        (updated_state (is_full (conf e) (now_utc e) (load_state (STATE_FILE e)))
           (load_state (STATE_FILE e)) (to_process_of (conf e) rows)
           (select (is_full (conf e) (now_utc e) (load_state (STATE_FILE e))) (now_utc e)
              (load_state (STATE_FILE e)) (to_process_of (conf e) rows)).2)
        (STATE_FILE e).
Proof.
  unfold delivery. run_cases e; simpl; try discriminate.
  intros _. by exists rows.
Qed.


(** X7.  Once a run has delivered and saved, a later run on the same
    data outside hour 21 finds nothing to report: it sends nothing,
    writes nothing and exits 0 (identifiers being distinct among the
    processed rows). *)
Theorem rerun_reports_nothing (e : env) (rows : list row) (now' : instant) :
  DATA_FILE e = DataRows rows →
  delivery (main e) = Some true →
  state_writable e = true →
  NoDup (aid_of <$> to_process_of (conf e) rows) →
  hour now' ≠ 21 →
  exit_code (main (rerun_at e now')) = 0 ∧
  trace (main (rerun_at e now')) = [] ∧
  STATE_FILE_after (main (rerun_at e now')) = STATE_FILE_after (main e).
Proof.
  intros Hdata Hdel Hw Hnd Hhour.
  destruct (delivered_run e Hdel) as (rows' & Hdata' & _ & Hne & Hafter).
  rewrite Hdata in Hdata'. injection Hdata' as <-.
  rewrite Hw in Hafter. simpl in Hafter.
  set (full := is_full (conf e) (now_utc e) (load_state (STATE_FILE e))) in *.
  set (l := to_process_of (conf e) rows) in *.
  set (st := load_state (STATE_FILE e)) in *.
  set (st' := updated_state full st l (select full (now_utc e) st l).2) in *.
  assert (Hst' : st' ≠ ∅) by by apply updated_state_nonempty.
  assert (Hcases := main_cases (rerun_at e now') rows Hdata).
  unfold seed_skipped, rerun_at in Hcases. simpl in Hcases.
  rewrite Hafter in Hcases. simpl in Hcases.
  unfold initial_run in Hcases at 1.
  rewrite bool_decide_eq_false_2 in Hcases by done.
  specialize (Hcases eq_refl). cbv zeta in Hcases.
  assert (Hinc : is_full (conf e) now' st' = false).
  { unfold is_full, initial_run. rewrite bool_decide_eq_false_2 by done. simpl.
    unfold is_daily_full_run. by apply Z.eqb_neq. }
  rewrite Hinc in Hcases.
  assert (Hnone : select false now' st' l = ([], [])).
  { unfold select. rewrite incremental_loop. simpl.
    rewrite (filter_none (send_flag st') l); [done|].
    intros r Hr. by apply rows_settled. }
  fold l in Hcases. rewrite Hnone in Hcases. simpl in Hcases.
  unfold rerun_at. rewrite Hafter, Hcases. done.
Qed.

(** X8.  A run that delivered and saved leaves a state that is not
    empty: the run after it is no first run. *)
Theorem delivery_ends_first_run (e : env) :
  delivery (main e) = Some true →
  state_writable e = true →
  initial_run (load_state (STATE_FILE_after (main e))) = false.
Proof.
  intros Hdel Hw.
  destruct (delivered_run e Hdel) as (rows & Hdata & _ & Hne & ->).
  rewrite Hw. simpl. apply bool_decide_eq_false_2.
  by apply updated_state_nonempty.
Qed.


(** ** Trimming *)

Lemma append_assoc (a b c : string) : ((a ++ b) ++ c)%string = (a ++ (b ++ c))%string.
Proof. induction a as [|x a IH]; [done|]. rewrite !append_cons. by rewrite IH. Qed.

Lemma rev_app_append (s acc : string) :
  String.rev_app s acc = (String.rev s ++ acc)%string.
Proof.
  unfold String.rev. revert acc. induction s as [|c s IH]; intros acc; [done|].
  simpl. rewrite (IH (String c acc)), (IH (String c "")), append_assoc. done.
Qed.

Lemma rev_cons (c : ascii) (s : string) :
  String.rev (String c s) = (String.rev s ++ String c "")%string.
Proof. unfold String.rev at 1. simpl. apply rev_app_append. Qed.

Lemma rev_append (a b : string) :
  String.rev (a ++ b)%string = (String.rev b ++ String.rev a)%string.
Proof.
  induction a as [|c a IH].
  - simpl. by rewrite append_empty_r.
  - rewrite append_cons, !rev_cons, IH, append_assoc. done.
Qed.

Lemma lstrip_head (s : string) (c : ascii) (t : string) :
  PyStr.lstrip s = String c t → PyStr.is_space c = false.
Proof.
  induction s as [|d s IH]; [discriminate|]. simpl.
  destruct (PyStr.is_space d) eqn:Hd; [done|]. by intros [= <- _].
Qed.

Lemma lstrip_fixed (c : ascii) (t : string) :
  PyStr.is_space c = false → PyStr.lstrip (String c t) = String c t.
Proof. intros Hc. simpl. by rewrite Hc. Qed.

Lemma lstrip_idem (s : string) : PyStr.lstrip (PyStr.lstrip s) = PyStr.lstrip s.
Proof.
  destruct (PyStr.lstrip s) as [|c t] eqn:Hs; [done|].
  apply lstrip_fixed. by apply (lstrip_head s c t).
Qed.

Lemma lstrip_append_nonspace (a : string) (c : ascii) :
  PyStr.is_space c = false →
  PyStr.lstrip (a ++ String c "")%string = (PyStr.lstrip a ++ String c "")%string.
Proof.
  intros Hc. induction a as [|d a IH].
  - simpl. by rewrite Hc.
  - rewrite append_cons. simpl. destruct (PyStr.is_space d); [done|].
    by rewrite append_cons.
Qed.

Lemma rstrip_cons_nonspace (c : ascii) (t : string) :
  PyStr.is_space c = false →
  PyStr.rstrip (String c t) = String c (PyStr.rstrip t).
Proof.
  intros Hc. unfold PyStr.rstrip.
  rewrite rev_cons, (lstrip_append_nonspace _ c Hc), rev_append. done.
Qed.

Lemma rstrip_idem (s : string) : PyStr.rstrip (PyStr.rstrip s) = PyStr.rstrip s.
Proof. unfold PyStr.rstrip. by rewrite rev_involutive, lstrip_idem. Qed.

(** [strip] returns a string that [strip] leaves alone. *)
Lemma strip_idem (s : string) : PyStr.strip (PyStr.strip s) = PyStr.strip s.
Proof.
  unfold PyStr.strip.
  destruct (PyStr.lstrip s) as [|c t] eqn:Hs; [done|].
  pose proof (lstrip_head s c t Hs) as Hc.
  rewrite (rstrip_cons_nonspace c t Hc), (lstrip_fixed _ _ Hc).
  rewrite <- (rstrip_cons_nonspace c t Hc). apply rstrip_idem.
Qed.

(** A string free of whitespace is its own trimming. *)
Lemma strip_no_space (s : string) :
  (∀ c, In c (list_ascii_of_string s) → PyStr.is_space c = false) →
  PyStr.strip s = s.
Proof.
  induction s as [|c s IH]; intros Hs; [done|].
  assert (Hc : PyStr.is_space c = false) by (apply Hs; by left).
  unfold PyStr.strip. rewrite (lstrip_fixed _ _ Hc), (rstrip_cons_nonspace _ _ Hc).
  f_equal. destruct s as [|d s]; [done|].
  assert (Hd : PyStr.is_space d = false) by (apply Hs; right; by left).
  rewrite <- (lstrip_fixed d s Hd) at 1. apply IH.
  intros x Hx. apply Hs. by right.
Qed.

(** ** The entries a run stores *)

Lemma entry_status_trimmed (r : row) (s : string) :
  status (entry_of r) = Some s → s ≠ "" ∧ PyStr.strip s = s.
Proof.
  unfold entry_of. simpl. destruct (PyStr.truthy (current_status_of r)) eqn:Hs; [|done].
  intros [= <-]. split; [by apply truthy_true|]. apply strip_idem.
Qed.

(** Every entry of the state after an update loop was there before or
    is the entry of a processed row. *)
Lemma updated_state_lookup_cases (full : bool) (st : gmap string entry) (l : list row)
    (changed : list string) (k : string) (en : entry) :
  updated_state full st l changed !! k = Some en →
  st !! k = Some en ∨ ∃ r, r ∈ l ∧ aid_of r = k ∧ en = entry_of r.
Proof.
  unfold updated_state. destruct full.
  - rewrite full_update_lookup. destruct (last _) as [r|] eqn:Hlast; [|by left].
    apply last_filter_elem in Hlast as [Hin Hkey]. apply bool_decide_eq_true in Hkey.
    intros [= <-]. right. eauto.
  - rewrite incremental_update_as_filter, full_update_lookup.
    destruct (last _) as [r|] eqn:Hlast; [|by left].
    apply last_filter_elem in Hlast as [Hin Hkey]. apply bool_decide_eq_true in Hkey.
    apply list_elem_of_In, filter_In in Hin as [Hin _]. apply list_elem_of_In in Hin.
    intros [= <-]. right. eauto.
Qed.

(** X10.  No run stores a blank or padded status: when every status of
    the state a run loads is non-empty and trimmed, so is every status of
    the state it leaves. *)
Theorem main_keeps_statuses_trimmed (e : env) :
  statuses_trimmed (load_state (STATE_FILE e)) →
  statuses_trimmed (load_state (STATE_FILE_after (main e))).
Proof.
  intros Hinv. run_cases e; simpl; try done.
  - unfold save_state. destruct (state_writable e); [|done]. simpl.
    intros k en s Hk. by rewrite lookup_empty in Hk.
  - unfold save_state. destruct (state_writable e); [|done]. simpl.
    intros k en s Hk Hs.
    apply updated_state_lookup_cases in Hk as [Hk|(r & _ & _ & ->)].
    + by apply (Hinv k en s).
    + by apply (entry_status_trimmed r).
Qed.

(** ** What flags a row *)

(** X11.  A row is flagged only when the entry it would store differs
    from the stored one: a row whose instant, in whole seconds, and
    trimmed status are those of its stored entry is never reported. *)
Theorem flagged_only_on_change (state : gmap string entry) (r : row) :
  send_flag state r = true → state !! aid_of r ≠ Some (entry_of r).
Proof.
  intros Hflag Hown. by rewrite (send_flag_own_entry state r Hown) in Hflag.
Qed.

(** X12.  An instant that does not advance is not reported: with a
    stored instant at or after the current one, the row is flagged only
    for a non-blank status that differs from the stored one. *)
Theorem stale_instant_needs_status (state : gmap string entry) (r : row)
    (en : entry) (t1 t2 : Z) :
  state !! aid_of r = Some en → ts en = Some t1 →
  _epoch_seconds_or_none (lastSuccessfulBackupTimestamp r) = Some t2 →
  t2 ≤ t1 →
  (send_flag state r = true ↔
   current_status_of r ≠ "" ∧ current_status_of r ≠ or_empty (status en)).
Proof.
  intros Hprior Hts Hcur Hle. rewrite send_flag_iff.
  unfold newer_instant, status_changed. rewrite Hprior, Hcur. simpl. rewrite Hts.
  split; [|by right].
  intros [(cur & [= <-] & [?|[?|(t1' & [= <-] & ?)]])|H]; [done|done|lia|done].
Qed.

(** ** The range of integer timestamps *)

Lemma parse_int (n : Z) :
  _parse_to_utc_datetime (TsInt n) =
  of_microseconds (if 1000000000000 <? n then n * 1000 else n * 1000000).
Proof.
  simpl. unfold epoch_seconds. rewrite gt_1e12_int.
  destruct (1000000000000 <? n); [apply fromtimestamp_millis | apply fromtimestamp_seconds].
Qed.

Lemma of_microseconds_some (us : Z) :
  is_Some (of_microseconds us) ↔ MIN_INSTANT ≤ us ≤ MAX_INSTANT.
Proof.
  unfold of_microseconds.
  destruct (Z.leb_spec MIN_INSTANT us), (Z.leb_spec us MAX_INSTANT); simpl;
    split; try (intros [? [=]]); try lia; eauto.
Qed.

(** X13.  An integer timestamp yields an instant exactly when it lies
    in the years 1..9999 read as seconds, or is above 1e12 and lies
    there read as milliseconds.  Integers from 253402300800 up to 1e12,
    the milliseconds of 1978 to September 2001 among them, yield
    nothing. *)
Theorem integer_timestamp_accepted (n : Z) :
  (is_Some (_parse_to_utc_datetime (TsInt n)) ↔
     -62135596800 ≤ n ≤ 253402300799 ∨
     1000000000000 < n ≤ 253402300799999) ∧
  (253402300799 < n ≤ 1000000000000 → _parse_to_utc_datetime (TsInt n) = None).
Proof.
  rewrite parse_int. split.
  - rewrite of_microseconds_some. unfold MIN_INSTANT, MAX_INSTANT.
    destruct (Z.ltb_spec 1000000000000 n); lia.
  - intros Hn. destruct (Z.ltb_spec 1000000000000 n); [lia|].
    destruct (of_microseconds _) eqn:Hsome; [|done].
    assert (Hin : is_Some (of_microseconds (n * 1000000))) by eauto.
    apply of_microseconds_some in Hin. unfold MAX_INSTANT in Hin. lia.
Qed.

(** X14.  The epoch second stored for an integer timestamp: the integer
    itself when it is a count of seconds within the years 1..9999, one
    thousandth of it, rounded down, when it is a count of milliseconds
    above 1e12 within those years. *)
Theorem integer_epoch_seconds (n : Z) :
  (-62135596800 ≤ n ≤ 253402300799 →
     _epoch_seconds_or_none (TsInt n) = Some n) ∧
  (1000000000000 < n ≤ 253402300799999 →
     _epoch_seconds_or_none (TsInt n) = Some (n / 1000)).
Proof.
  unfold _epoch_seconds_or_none. rewrite parse_int. unfold of_microseconds, timestamp_int.
  split; intros Hn.
  - destruct (Z.ltb_spec 1000000000000 n); [lia|].
    destruct (Z.leb_spec MIN_INSTANT (n * 1000000)); [|unfold MIN_INSTANT in *; lia].
    destruct (Z.leb_spec (n * 1000000) MAX_INSTANT); [|unfold MAX_INSTANT in *; lia].
    simpl. by rewrite Z.quot_mul.
  - destruct (Z.ltb_spec 1000000000000 n); [|lia].
    destruct (Z.leb_spec MIN_INSTANT (n * 1000)); [|unfold MIN_INSTANT in *; lia].
    destruct (Z.leb_spec (n * 1000) MAX_INSTANT); [|unfold MAX_INSTANT in *; lia].
    simpl. f_equal. rewrite Z.quot_div_nonneg by lia.
    replace 1000000 with (1000 * 1000) by reflexivity.
    rewrite <- Z.div_div by lia. by rewrite Z.div_mul.
Qed.

(** ** The sample of rows *)

(** X15.  Whatever [SAMPLE_COUNT] is, the processed rows are a prefix of
    the rows of the data file: all of them at 0 or at a count that
    reaches their number, the first [SAMPLE_COUNT] at a smaller positive
    count, and all but the last [-SAMPLE_COUNT] at a negative one. *)
Theorem to_process_is_prefix (c : config) (rows : list row) :
  to_process_of c rows `prefix_of` rows ∧
  (SAMPLE_COUNT c = 0 ∨ Z.of_nat (length rows) ≤ SAMPLE_COUNT c →
     to_process_of c rows = rows) ∧
  (0 < SAMPLE_COUNT c →
     length (to_process_of c rows) = Nat.min (Z.to_nat (SAMPLE_COUNT c)) (length rows)) ∧
  (SAMPLE_COUNT c < 0 →
     length (to_process_of c rows) = (length rows - Z.to_nat (- SAMPLE_COUNT c))%nat).
Proof.
  unfold to_process_of, slice_to.
  destruct (Z.eqb_spec (SAMPLE_COUNT c) 0) as [Hz|Hnz];
    [|destruct (Z.ltb_spec (SAMPLE_COUNT c) 0) as [Hneg|Hpos]].
  - split; [done|]. split; [done|]. split; lia.
  - split; [apply prefix_take|]. split; [lia|]. split; [lia|].
    intros _. rewrite length_take. lia.
  - split; [apply prefix_take|]. split; [|split; [|lia]].
    + intros [?|Hall]; [done|]. apply take_ge. lia.
    + intros _. by rewrite length_take.
Qed.

(** ** The lines of the report *)


(** ** Organization names *)

Lemma alnum_not_space (c : ascii) : is_alnum c = true → PyStr.is_space c = false.
Proof.
  unfold is_alnum, PyStr.is_space. intros Ha.
  destruct (N.leb_spec 9 (N_of_ascii c)), (N.leb_spec (N_of_ascii c) 13),
    (N.leb_spec 28 (N_of_ascii c)), (N.leb_spec (N_of_ascii c) 32); simpl; try done;
    destruct (N.leb_spec 48 (N_of_ascii c)), (N.leb_spec (N_of_ascii c) 57),
      (N.leb_spec 65 (N_of_ascii c)), (N.leb_spec (N_of_ascii c) 90),
      (N.leb_spec 97 (N_of_ascii c)), (N.leb_spec (N_of_ascii c) 122);
    simpl in Ha; try done; lia.
Qed.

Lemma space_not_alnum (c : ascii) : PyStr.is_space c = true → is_alnum c = false.
Proof.
  intros Hs. destruct (is_alnum c) eqn:Ha; [|done].
  apply alnum_not_space in Ha. congruence.
Qed.

Lemma remove_all_alnum (s : string) : all_alnum (remove_non_alnum s) = true.
Proof.
  induction s as [|c s IH]; [done|]. simpl.
  destruct (is_alnum c) eqn:Hc; [|done]. simpl. by rewrite Hc.
Qed.

Lemma remove_fixed (s : string) : all_alnum s = true → remove_non_alnum s = s.
Proof.
  induction s as [|c s IH]; [done|]. simpl. intros Hs.
  apply andb_true_iff in Hs as [Hc Hs]. by rewrite Hc, IH.
Qed.

Lemma remove_append (a b : string) :
  remove_non_alnum (a ++ b)%string = (remove_non_alnum a ++ remove_non_alnum b)%string.
Proof.
  induction a as [|c a IH]; [done|]. rewrite append_cons. simpl.
  destruct (is_alnum c); [|done]. by rewrite append_cons, IH.
Qed.

Lemma remove_rev (s : string) :
  remove_non_alnum (String.rev s) = String.rev (remove_non_alnum s).
Proof.
  induction s as [|c s IH]; [done|].
  rewrite rev_cons, remove_append, IH. simpl.
  destruct (is_alnum c); [by rewrite rev_cons|]. apply append_empty_r.
Qed.

Lemma remove_lstrip (s : string) :
  remove_non_alnum (PyStr.lstrip s) = remove_non_alnum s.
Proof.
  induction s as [|c s IH]; [done|]. simpl.
  destruct (PyStr.is_space c) eqn:Hc; [|done].
  by rewrite (space_not_alnum c Hc).
Qed.

(** Trimming first does not change what the substitution keeps. *)
Lemma remove_strip (s : string) :
  remove_non_alnum (PyStr.strip s) = remove_non_alnum s.
Proof.
  unfold PyStr.strip, PyStr.rstrip.
  by rewrite remove_rev, remove_lstrip, remove_rev, rev_involutive, remove_lstrip.
Qed.

Lemma all_alnum_no_space (s : string) :
  all_alnum s = true →
  ∀ c, In c (list_ascii_of_string s) → PyStr.is_space c = false.
Proof.
  induction s as [|d s IH]; simpl; [done|]. intros Hs c [<-|Hc].
  - apply alnum_not_space. by apply andb_true_iff in Hs as [? _].
  - apply IH; [|done]. by apply andb_true_iff in Hs as [_ ?].
Qed.

Lemma sanitized_ok (org_name : option string) :
  _sanitize_org_name org_name ≠ "" ∧ all_alnum (_sanitize_org_name org_name) = true.
Proof.
  destruct org_name as [s|]; simpl; [|done].
  destruct (PyStr.truthy s); simpl; [|done].
  destruct (PyStr.truthy (remove_non_alnum (PyStr.strip s))) eqn:Hkept; [|done].
  split; [by apply truthy_true | apply remove_all_alnum].
Qed.

(** X17.  A sanitized organization name is never empty and holds only
    ASCII letters and digits: it is the letters and digits of the name,
    in order, or "Unassigned" when the name is missing or has none. *)
Theorem sanitized_name_shape (org_name : option string) :
  _sanitize_org_name org_name ≠ "" ∧
  all_alnum (_sanitize_org_name org_name) = true ∧
  _sanitize_org_name org_name =
    (if PyStr.truthy (remove_non_alnum (or_empty org_name))
     then remove_non_alnum (or_empty org_name) else "Unassigned").
Proof.
  destruct (sanitized_ok org_name) as [Hne Hall].
  split; [done|]. split; [done|].
  destruct org_name as [s|]; simpl; [|done].
  rewrite remove_strip. by destruct s.
Qed.

(** X18.  Sanitizing is idempotent: a sanitized name is sanitized to
    itself. *)
Theorem sanitize_idempotent (org_name : option string) :
  _sanitize_org_name (Some (_sanitize_org_name org_name)) = _sanitize_org_name org_name.
Proof.
  assert (Hfix : ∀ s, s ≠ "" → all_alnum s = true → _sanitize_org_name (Some s) = s).
  { intros s Hne Hall. unfold _sanitize_org_name.
    apply truthy_true in Hne. rewrite Hne. simpl.
    rewrite (strip_no_space s (all_alnum_no_space s Hall)), (remove_fixed s Hall).
    by rewrite Hne. }
  destruct (sanitized_ok org_name) as [Hne Hall]. by apply Hfix.
Qed.

(** ** The table printer *)

Lemma length_append (a b : string) :
  String.length (a ++ b)%string = (String.length a + String.length b)%nat.
Proof. induction a as [|c a IH]; [done|]. rewrite append_cons. simpl. by rewrite IH. Qed.

Lemma length_repeat_char (c : ascii) (n : nat) : String.length (repeat_char c n) = n.
Proof. induction n as [|n IH]; simpl; congruence. Qed.

(** A padded string has the width asked for once that width covers it. *)
Lemma length_ljust (s : string) (width : nat) :
  (String.length s ≤ width)%nat → String.length (ljust s width) = width.
Proof. intros Hle. unfold ljust. rewrite length_append, length_repeat_char. lia. Qed.

(** Joined lines whose parts agree in length agree in length. *)
Lemma length_join_ext {A} (sep : string) (f g : A → string) (l : list A) :
  (∀ x, x ∈ l → String.length (f x) = String.length (g x)) →
  String.length (join sep (f <$> l)) = String.length (join sep (g <$> l)).
Proof.
  induction l as [|x l IH]; intros Hfg; [done|].
  assert (Hx : String.length (f x) = String.length (g x)) by (apply Hfg; by left).
  assert (Hl : String.length (join sep (f <$> l)) = String.length (join sep (g <$> l))).
  { apply IH. intros y Hy. apply Hfg. by right. }
  destruct l as [|y l]; [done|].
  rewrite !fmap_cons in *.
  change (join sep (f x :: f y :: (f <$> l)))
    with (f x ++ sep ++ join sep (f y :: (f <$> l)))%string.
  change (join sep (g x :: g y :: (g <$> l)))
    with (g x ++ sep ++ join sep (g y :: (g <$> l)))%string.
  rewrite !length_append. lia.
Qed.

Lemma widen_lookup (headers : list string) (widths : gmap string nat) (row : table_row)
    (col : string) :
  (width_at widths col ≤ width_at (widen headers widths row) col)%nat ∧
  (col ∈ headers →
   (String.length (cell row col) ≤ width_at (widen headers widths row) col)%nat) ∧
  (is_Some (widths !! col) → is_Some (widen headers widths row !! col)).
Proof.
  unfold widen. revert widths. induction headers as [|h headers IH]; intros widths; simpl.
  - split; [lia|]. split; [|done]. intros Hin. by apply elem_of_nil in Hin.
  - set (widths' := <[h := _]> widths).
    destruct (IH widths') as (Hmono & Hcell & Hdom).
    assert (Hstep : (width_at widths col ≤ width_at widths' col)%nat).
    { unfold widths', width_at. destruct (decide (h = col)) as [->|Hne].
      - rewrite lookup_insert_eq. simpl. lia.
      - by rewrite lookup_insert_ne. }
    split; [lia|]. split.
    + intros Hin. apply elem_of_cons in Hin as [->|Hin]; [|by apply Hcell].
      assert ((String.length (cell row h) ≤ width_at widths' h)%nat); [|lia].
      unfold widths', width_at. rewrite lookup_insert_eq. simpl. lia.
    + intros Hsome. apply Hdom. unfold widths'.
      destruct (decide (h = col)) as [->|Hne].
      * rewrite lookup_insert_eq. eauto.
      * by rewrite lookup_insert_ne.
Qed.

Lemma header_widths_lookup (headers : list string) (col : string) :
  col ∈ headers → header_widths headers !! col = Some (String.length col).
Proof.
  unfold header_widths.
  assert (Hgen : ∀ widths : gmap string nat,
            (col ∈ headers ∨ widths !! col = Some (String.length col)) →
            foldl (λ widths col, <[col := String.length col]> widths) widths headers !! col =
            Some (String.length col)).
  { induction headers as [|h headers IH]; intros widths Hcol; simpl.
    - destruct Hcol as [Hin|Hw]; [by apply elem_of_nil in Hin | done].
    - apply IH. destruct (decide (h = col)) as [->|Hne].
      + right. by rewrite lookup_insert_eq.
      + destruct Hcol as [Hin|Hw].
        * apply elem_of_cons in Hin as [->|Hin]; [done | by left].
        * right. by rewrite lookup_insert_ne. }
  intros Hin. apply Hgen. by left.
Qed.

(** The widths after the pass: each column is present and at least as
    wide as its header and as every cell under it. *)
Lemma column_widths_cover (rows : list table_row) (headers : list string) (col : string) :
  col ∈ headers →
  is_Some (column_widths rows headers !! col) ∧
  (String.length col ≤ width_at (column_widths rows headers) col)%nat ∧
  (∀ row, row ∈ rows →
     (String.length (cell row col) ≤ width_at (column_widths rows headers) col)%nat).
Proof.
  intros Hcol. unfold column_widths.
  assert (Hgen : ∀ widths : gmap string nat,
            is_Some (widths !! col) →
            is_Some (foldl (widen headers) widths rows !! col) ∧
            (width_at widths col ≤ width_at (foldl (widen headers) widths rows) col)%nat ∧
            (∀ row, row ∈ rows →
               (String.length (cell row col)
                ≤ width_at (foldl (widen headers) widths rows) col)%nat)).
  { induction rows as [|r rows IH]; intros widths Hsome; simpl.
    - split; [done|]. split; [lia|]. intros row Hrow. by apply elem_of_nil in Hrow.
    - destruct (widen_lookup headers widths r col) as (Hmono & Hcell & Hdom).
      destruct (IH (widen headers widths r) (Hdom Hsome)) as (Hsome' & Hmono' & Hcells).
      split; [done|]. split; [lia|].
      intros row Hrow. apply elem_of_cons in Hrow as [->|Hrow]; [|by apply Hcells].
      specialize (Hcell Hcol). lia. }
  destruct (Hgen (header_widths headers)) as (Hsome & Hmono & Hcells).
  { rewrite (header_widths_lookup headers col Hcol). eauto. }
  split; [done|]. split; [|done].
  unfold width_at at 1 in Hmono. by rewrite (header_widths_lookup headers col Hcol) in Hmono.
Qed.

(** X19.  The table is aligned: there is one line for the header, one
    for the underline and one per row, every one of them exactly as long
    as the underline, and no column is narrower than its header or than
    any cell under it, so nothing is cut. *)
Theorem format_table_aligned (rows : list table_row) (columns : list string) :
  length (table_lines rows columns) = (2 + length rows)%nat ∧
  (∀ line, line ∈ table_lines rows columns →
     String.length line =
     String.length (join "  " ((λ col, repeat_char "-" (width_at (column_widths rows columns) col))
                                <$> columns))) ∧
  (∀ col, col ∈ columns →
     (String.length col ≤ width_at (column_widths rows columns) col)%nat ∧
     ∀ row, row ∈ rows →
       (String.length (cell row col) ≤ width_at (column_widths rows columns) col)%nat).
Proof.
  split; [|split].
  - unfold table_lines. simpl. by rewrite length_fmap.
  - intros line Hline. unfold table_lines in Hline. cbv zeta in Hline.
    apply elem_of_app in Hline as [Hline|Hline].
    + apply elem_of_cons in Hline as [->|Hline].
      * apply length_join_ext. intros col Hcol.
        rewrite length_repeat_char. apply length_ljust.
        by apply column_widths_cover.
      * apply list_elem_of_singleton in Hline as ->. done.
    + apply list_elem_of_fmap in Hline as (row & -> & Hrow).
      apply length_join_ext. intros col Hcol.
      rewrite length_repeat_char. apply length_ljust.
      by apply column_widths_cover.
  - intros col Hcol. destruct (column_widths_cover rows columns col Hcol) as (_ & ? & ?).
    done.
Qed.

(** ** The fetcher and the notifier together *)

(** The shape of a run of [API.py] that starts the notifier. *)
Lemma api_main_notifier (f : fetch_env) (o : outcome) :
  notifier_run (api_main f) = Some o →
  asset_list f ≠ [] ∧
  api_exit_code (api_main f) = 0 ∧
  rows_saved (api_main f) = Some (normalize_assets (asset_list f)) ∧
  o = main (with_rows (notifier_inputs f) (normalize_assets (asset_list f))).
Proof.
  unfold api_main. destruct (token f) as [t|]; [|discriminate].
  destruct (negb (PyStr.truthy t)); [discriminate|].
  destruct (asset_list f) as [|a l] eqn:Hassets; [discriminate|].
  destruct (negb (rows_writable f)); [discriminate|].
  destruct (negb (notifier_exists f)); [discriminate|].
  simpl. intros [= <-]. done.
Qed.

(** X20.  [API.py] exits with 1 exactly when it has no token, no asset,
    or cannot write the rows file, and with 0 otherwise: once it has
    started the notifier it exits with 0 whatever the notifier's own exit
    code is. *)
Theorem api_exit_code_cases (f : fetch_env) :
  (api_exit_code (api_main f) = 0 ∨ api_exit_code (api_main f) = 1) ∧
  (api_exit_code (api_main f) = 1 ↔
     or_empty (token f) = "" ∨ asset_list f = [] ∨ rows_writable f = false) ∧
  (∀ o, notifier_run (api_main f) = Some o → api_exit_code (api_main f) = 0).
Proof.
  split; [|split].
  - unfold api_main. destruct (token f) as [t|]; [|auto].
    destruct (negb (PyStr.truthy t)); [auto|].
    destruct (asset_list f); [auto|].
    destruct (negb (rows_writable f)); [auto|].
    destruct (negb (notifier_exists f)); auto.
  - unfold api_main. destruct (token f) as [t|]; simpl; [|by split; [left|]].
    destruct t as [|c t]; simpl; [by split; [left|]|].
    destruct (asset_list f) as [|a l]; [by split; [right; left|]|].
    destruct (rows_writable f); simpl.
    + destruct (negb (notifier_exists f)); simpl;
        (split; [discriminate|]); intros [?|[?|?]]; discriminate.
    + split; [|done]. intros _. right. by right.
  - intros o Ho. by destruct (api_main_notifier f o Ho) as (_ & ? & _).
Qed.




(** ** Sorting and grouping *)

Lemma leb_le (a b : string) : String.leb a b = true ↔ String.le a b.
Proof. unfold String.le. by rewrite Is_true_true. Qed.

Lemma leb_refl (a : string) : String.leb a a = true.
Proof. apply leb_le. reflexivity. Qed.

Lemma leb_total (a b : string) : String.leb a b = false → String.leb b a = true.
Proof.
  intros Hab. apply leb_le. destruct (String.le_total a b) as [H|H]; [|done].
  apply leb_le in H. congruence.
Qed.

Lemma leb_trans (a b c : string) :
  String.leb a b = true → String.leb b c = true → String.leb a c = true.
Proof. rewrite !leb_le. apply transitivity. Qed.

Lemma leb_antisym (a b : string) :
  String.leb a b = true → String.leb b a = true → a = b.
Proof. rewrite !leb_le. apply (anti_symm String.le). Qed.

Lemma key_leb_refl (k : string * string) : key_leb k k = true.
Proof. unfold key_leb. rewrite String.eqb_refl. apply leb_refl. Qed.

Lemma key_leb_total (a b : string * string) : key_leb a b = false → key_leb b a = true.
Proof.
  unfold key_leb. rewrite (String.eqb_sym b.1 a.1).
  destruct (String.eqb a.1 b.1); apply leb_total.
Qed.

Lemma key_leb_trans (a b c : string * string) :
  key_leb a b = true → key_leb b c = true → key_leb a c = true.
Proof.
  unfold key_leb. destruct a as [a1 a2], b as [b1 b2], c as [c1 c2]. simpl.
  destruct (String.eqb_spec a1 b1) as [Eab|Hab],
           (String.eqb_spec b1 c1) as [Ebc|Hbc],
           (String.eqb_spec a1 c1) as [Eac|Hac];
    subst; try congruence; try apply leb_trans; try done.
  intros H1 H2. exfalso. apply Hab. by apply leb_antisym.
Qed.

Lemma key_leb_antisym (a b : string * string) :
  key_leb a b = true → key_leb b a = true → a = b.
Proof.
  unfold key_leb. rewrite (String.eqb_sym b.1 a.1).
  destruct a as [a1 a2], b as [b1 b2]. simpl.
  destruct (String.eqb_spec a1 b1) as [->|Hne]; intros H1 H2.
  - f_equal. by apply leb_antisym.
  - exfalso. apply Hne. by apply leb_antisym.
Qed.

Lemma insert_sorted_perm (r : api_row) (l : list api_row) : insert_sorted r l ≡ₚ r :: l.
Proof.
  induction l as [|x l IH]; simpl; [done|].
  destruct (key_leb _ _); [done|]. rewrite IH. apply Permutation_swap.
Qed.

Lemma insert_sorted_sorted (r : api_row) (l : list api_row) :
  StronglySorted row_le l → StronglySorted row_le (insert_sorted r l).
Proof.
  induction l as [|x l IH]; intros Hl; simpl.
  - by repeat constructor.
  - apply StronglySorted_inv in Hl as [Hl Hx].
    destruct (key_leb (sort_key r) (sort_key x)) eqn:Hrx.
    + constructor; [by constructor|]. constructor; [done|].
      eapply Forall_impl; [exact Hx|]. intros y Hy. unfold row_le in *.
      by eapply key_leb_trans.
    + constructor; [by apply IH|].
      rewrite (insert_sorted_perm r l). constructor; [|done].
      by apply key_leb_total.
Qed.

(** Insertion keeps rows of equal key in their order. *)
Lemma insert_sorted_stable (r : api_row) (l : list api_row) (k : string * string) :
  List.filter (λ x, bool_decide (sort_key x = k)) (insert_sorted r l) =
  List.filter (λ x, bool_decide (sort_key x = k)) (r :: l).
Proof.
  induction l as [|x l IH]; [done|].
  cbn [insert_sorted]. destruct (key_leb (sort_key r) (sort_key x)) eqn:Hrx; [done|].
  cbn [List.filter] in *. rewrite IH.
  case_bool_decide as Hr; [|done]. case_bool_decide as Hx; [|done].
  rewrite Hr, Hx, key_leb_refl in Hrx. discriminate.
Qed.

(** X22.  The sorted rows are the rows, reordered so that organizations
    ascend and names ascend within an organization, a missing one
    counting as the empty string; rows that agree on both keep the order
    they came in. *)
Theorem sorted_rows_spec (rows : list api_row) :
  (sort_and_group rows).1 ≡ₚ rows ∧
  StronglySorted row_le (sort_and_group rows).1 ∧
  (∀ k, List.filter (λ x, bool_decide (sort_key x = k)) (sort_and_group rows).1 =
        List.filter (λ x, bool_decide (sort_key x = k)) rows).
Proof.
  simpl. induction rows as [|r rows (Hperm & Hsorted & Hstable)]; simpl.
  - split; [done|]. split; [constructor|done].
  - split; [|split].
    + by rewrite insert_sorted_perm, Hperm.
    + by apply insert_sorted_sorted.
    + intros k. rewrite insert_sorted_stable. simpl. by rewrite Hstable.
Qed.

Lemma group_append_fresh (g : list (option string * list api_row)) (k : option string)
    (r : api_row) :
  k ∉ g.*1 → group_append g k r = g ++ [(k, [r])].
Proof.
  induction g as [|[k' rs] g IH]; intros Hk; simpl; [done|].
  rewrite fmap_cons, not_elem_of_cons in Hk. destruct Hk as [Hne Hk].
  rewrite decide_False by done. by rewrite IH.
Qed.

Lemma group_append_at (g1 g2 : list (option string * list api_row)) (k : option string)
    (rs : list api_row) (r : api_row) :
  k ∉ g1.*1 →
  group_append (g1 ++ (k, rs) :: g2) k r = g1 ++ (k, rs ++ [r]) :: g2.
Proof.
  induction g1 as [|[k' rs'] g1 IH]; intros Hk; simpl.
  - by rewrite decide_True.
  - rewrite fmap_cons, not_elem_of_cons in Hk. destruct Hk as [Hne Hk].
    rewrite decide_False by done. by rewrite IH.
Qed.

(** A key of the dictionary sits at one place. *)
Lemma group_split (g : list (option string * list api_row)) (k : option string) :
  NoDup g.*1 → k ∈ g.*1 →
  ∃ g1 rs g2, g = g1 ++ (k, rs) :: g2 ∧ (k ∉ g1.*1) ∧ (k ∉ g2.*1).
Proof.
  intros Hnd Hk. apply list_elem_of_fmap in Hk as ([k' rs] & -> & Hin).
  apply list_elem_of_split in Hin as (g1 & g2 & ->).
  exists g1, rs, g2. split; [done|].
  rewrite fmap_app, fmap_cons in Hnd. simpl in Hnd.
  apply NoDup_app in Hnd as (_ & Hsep & Hnd2). apply NoDup_cons in Hnd2 as [Hk2 _].
  split; [|done]. intros Hk1. apply (Hsep _ Hk1). by left.
Qed.

Lemma group_rows_snoc (l : list api_row) (r : api_row) :
  group_rows (l ++ [r]) = group_append (group_rows l) (Organization (fields r)) r.
Proof. unfold group_rows. by rewrite foldl_app. Qed.

Lemma filter_snoc {A} (f : A → bool) (l : list A) (x : A) :
  List.filter f (l ++ [x]) = List.filter f l ++ (if f x then [x] else []).
Proof. rewrite List.filter_app. simpl. by destruct (f x). Qed.

(** What the grouping loop has built after any number of rows. *)
Lemma group_rows_inv (l : list api_row) :
  NoDup (group_rows l).*1 ∧
  (∀ k rs, (k, rs) ∈ group_rows l →
     rs ≠ [] ∧
     rs = List.filter (λ x, bool_decide (Organization (fields x) = k)) l) ∧
  (∀ r, r ∈ l → Organization (fields r) ∈ (group_rows l).*1) ∧
  concat (group_rows l).*2 ≡ₚ l.
Proof.
  induction l as [|r l (Hnd & Hgrp & Hkeys & Hperm)] using rev_ind.
  - split; [constructor|]. split; [|split; [|done]].
    + intros k rs Hin. by apply elem_of_nil in Hin.
    + intros r Hr. by apply elem_of_nil in Hr.
  - rewrite group_rows_snoc. set (k := Organization (fields r)).
    destruct (decide (k ∈ (group_rows l).*1)) as [Hk|Hk].
    + destruct (group_split _ k Hnd Hk) as (g1 & rs & g2 & Hg & Hk1 & Hk2).
      rewrite Hg in *. rewrite (group_append_at g1 g2 k rs r Hk1).
      split; [|split; [|split]].
      * by rewrite fmap_app, fmap_cons in *.
      * intros k' rs' Hin. rewrite filter_snoc.
        apply elem_of_app in Hin as [Hin|Hin];
          [|apply elem_of_cons in Hin as [[= -> ->]|Hin]].
        -- assert (k' ≠ k).
           { intros ->. apply Hk1, list_elem_of_fmap. by exists (k, rs'). }
           rewrite bool_decide_eq_false_2 by done. rewrite app_nil_r.
           apply Hgrp. apply elem_of_app. by left.
        -- rewrite bool_decide_eq_true_2 by done.
           destruct (Hgrp k rs) as [_ <-]; [apply elem_of_app; right; by left|].
           split; [|done]. by destruct rs.
        -- assert (k' ≠ k).
           { intros ->. apply Hk2, list_elem_of_fmap. by exists (k, rs'). }
           rewrite bool_decide_eq_false_2 by done. rewrite app_nil_r.
           apply Hgrp. apply elem_of_app. right. by right.
      * intros x Hx. rewrite fmap_app, fmap_cons in *. simpl in *.
        apply elem_of_app in Hx as [Hx|Hx]; [by apply Hkeys|].
        apply list_elem_of_singleton in Hx as ->. apply elem_of_app. right. by left.
      * rewrite fmap_app, fmap_cons, concat_app in *. simpl in *.
        rewrite <- Hperm, <- !app_assoc.
        do 2 apply Permutation_app_head. apply Permutation_app_comm.
    + rewrite (group_append_fresh _ k r Hk).
      split; [|split; [|split]].
      * rewrite fmap_app. simpl. apply NoDup_app. split; [done|].
        split; [|apply NoDup_singleton].
        intros k' Hk' Hin. apply list_elem_of_singleton in Hin as ->. done.
      * intros k' rs' Hin. rewrite filter_snoc.
        apply elem_of_app in Hin as [Hin|Hin].
        -- assert (k' ≠ k).
           { intros ->. apply Hk, list_elem_of_fmap. by exists (k, rs'). }
           rewrite bool_decide_eq_false_2 by done. rewrite app_nil_r. by apply Hgrp.
        -- apply list_elem_of_singleton in Hin as [= -> ->].
           rewrite bool_decide_eq_true_2 by done. split; [done|].
           rewrite (filter_none _ l); [done|].
           intros x Hx. apply bool_decide_eq_false_2. intros Heq.
           apply Hk. rewrite <- Heq. by apply Hkeys.
      * intros x Hx. rewrite fmap_app. apply elem_of_app.
        apply elem_of_app in Hx as [Hx|Hx]; [left; by apply Hkeys|].
        apply list_elem_of_singleton in Hx as ->. right. by left.
      * rewrite fmap_app, concat_app. simpl. by rewrite Hperm, ?app_nil_r.
Qed.

Lemma sorted_rows_perm (rows : list api_row) : sorted_rows rows ≡ₚ rows.
Proof.
  induction rows as [|r rows IH]; [done|]. simpl.
  by rewrite insert_sorted_perm, IH.
Qed.

(** X23.  The groups partition the sorted rows: the keys are distinct,
    each group is not empty and holds, in sorted order, exactly the rows
    of its organization, every row is in the group of its organization,
    and the groups together hold the rows that went in, each once. *)
Theorem groups_partition_rows (rows : list api_row) :
  NoDup (sort_and_group rows).2.*1 ∧
  (∀ org grp, (org, grp) ∈ (sort_and_group rows).2 →
     grp ≠ [] ∧
     grp = List.filter (λ x, bool_decide (Organization (fields x) = org))
             (sort_and_group rows).1) ∧
  (∀ r, r ∈ rows →
     ∃ grp, (Organization (fields r), grp) ∈ (sort_and_group rows).2 ∧ r ∈ grp) ∧
  concat (sort_and_group rows).2.*2 ≡ₚ rows.
Proof.
  unfold sort_and_group. cbn [fst snd].
  destruct (group_rows_inv (sorted_rows rows)) as (Hnd & Hgrp & Hkeys & Hperm).
  pose proof (sorted_rows_perm rows) as Hsorted.
  split; [done|]. split; [done|]. split; [|by rewrite Hperm].
  intros r Hr. rewrite <- Hsorted in Hr.
  pose proof (Hkeys r Hr) as Hk.
  apply list_elem_of_fmap in Hk as ([k grp] & Hk & Hin). simpl in Hk. subst k.
  exists grp. split; [done|].
  destruct (Hgrp _ _ Hin) as [_ ->].
  apply list_elem_of_In, filter_In. rewrite <- list_elem_of_In.
  split; [done|]. by apply bool_decide_eq_true_2.
Qed.

(** The organizations of two rows in sort order are in order. *)
Lemma row_le_org (a b : api_row) :
  row_le a b → String.leb (sort_key a).1 (sort_key b).1 = true.
Proof.
  unfold row_le, key_leb.
  destruct (String.eqb_spec (sort_key a).1 (sort_key b).1) as [->|_]; [|done].
  intros _. apply leb_refl.
Qed.

Lemma sorted_rows_sorted (rows : list api_row) : StronglySorted row_le (sorted_rows rows).
Proof.
  induction rows as [|r rows IH]; simpl; [constructor|]. by apply insert_sorted_sorted.
Qed.

(** On rows in sort order that all name an organization, the groups
    follow one another as the rows do. *)
Lemma group_rows_in_order (l : list api_row) :
  StronglySorted row_le l →
  (∀ r, r ∈ l → Organization (fields r) ≠ None) →
  concat (group_rows l).*2 = l.
Proof.
  induction l as [|r l IH] using rev_ind; intros Hsorted Horg; [done|].
  assert (Hl : concat (group_rows l).*2 = l).
  { apply IH; [by eapply StronglySorted_app_1_l|].
    intros x Hx. apply Horg, elem_of_app. by left. }
  destruct (group_rows_inv l) as (Hnd & Hgrp & Hkeys & _).
  rewrite group_rows_snoc. set (k := Organization (fields r)).
  destruct (decide (k ∈ (group_rows l).*1)) as [Hk|Hk].
  - destruct (group_split _ k Hnd Hk) as (g1 & rs & g2 & Hg & Hk1 & Hk2).
    rewrite Hg in *. rewrite (group_append_at g1 g2 k rs r Hk1).
    destruct g2 as [|[k2 rs2] g2].
    + rewrite fmap_app, concat_app in *. simpl in *.
      rewrite app_nil_r in *. by rewrite <- Hl, <- app_assoc.
    + exfalso.
      destruct (Hgrp k rs) as [Hrs Hrs_eq]; [apply elem_of_app; right; by left|].
      destruct (Hgrp k2 rs2) as [Hrs2 Hrs2_eq];
        [apply elem_of_app; right; right; by left|].
      destruct rs as [|y rs]; [done|]. destruct rs2 as [|x rs2]; [done|].
      assert (Hy : Organization (fields y) = k).
      { assert (Hin : y ∈ List.filter (λ x, bool_decide (Organization (fields x) = k)) l)
          by (rewrite <- Hrs_eq; by left).
        apply list_elem_of_In, filter_In in Hin as [_ Hin].
        by apply bool_decide_eq_true in Hin. }
      assert (Hx : x ∈ l ∧ Organization (fields x) = k2).
      { assert (Hin : x ∈ List.filter (λ x, bool_decide (Organization (fields x) = k2)) l)
          by (rewrite <- Hrs2_eq; by left).
        apply list_elem_of_In, filter_In in Hin as [Hin Hin'].
        split; [by apply list_elem_of_In | by apply bool_decide_eq_true in Hin']. }
      destruct Hx as [Hxl Hx].
      assert (Hyx : row_le y x).
      { rewrite fmap_app, fmap_cons, concat_app in Hl. simpl in Hl.
        pose proof (StronglySorted_app_1_l _ _ _ Hsorted) as Hsl. rewrite <- Hl in Hsl.
        match type of Hsl with
        | StronglySorted _ (?a ++ ?y :: ?rs ++ ?t) =>
            replace (a ++ y :: rs ++ t) with ((a ++ y :: rs) ++ t) in Hsl
              by (by rewrite <- app_assoc)
        end.
        eapply StronglySorted_app_1_elem_of; [exact Hsl| |].
        - apply elem_of_app. right. by left.
        - by left. }
      assert (Hxr : row_le x r).
      { eapply StronglySorted_app_1_elem_of; [exact Hsorted|done|by left]. }
      apply row_le_org in Hyx, Hxr. unfold sort_key in Hyx, Hxr. simpl in Hyx, Hxr.
      rewrite Hy, Hx in *. fold k in Hxr.
      assert (Hkk : or_empty k = or_empty k2) by by apply leb_antisym.
      assert (Hk_some : k ≠ None) by (apply Horg, elem_of_app; right; by left).
      assert (Hk2_some : k2 ≠ None) by (rewrite <- Hx; apply Horg, elem_of_app; by left).
      apply Hk2. rewrite fmap_cons. simpl.
      destruct k as [a|], k2 as [b|]; try done. simpl in Hkk. subst b. by left.
  - rewrite (group_append_fresh _ k r Hk), fmap_app, concat_app. simpl.
    by rewrite Hl.
Qed.

(** X24.  On rows that all name an organization the groups, laid end to
    end in the order of their keys, are the sorted rows themselves; the
    rows [normalize_assets] builds are such rows. *)
Theorem groups_follow_sort_order :
  (∀ rows : list api_row,
     (∀ r, r ∈ rows → Organization (fields r) ≠ None) →
     concat (sort_and_group rows).2.*2 = (sort_and_group rows).1) ∧
  (∀ asset_list : list api_asset,
     concat (sort_and_group (normalize_assets asset_list)).2.*2 =
     (sort_and_group (normalize_assets asset_list)).1).
Proof.
  assert (Hgen : ∀ rows : list api_row,
            (∀ r, r ∈ rows → Organization (fields r) ≠ None) →
            concat (sort_and_group rows).2.*2 = (sort_and_group rows).1).
  { intros rows Horg. unfold sort_and_group. cbn [fst snd].
    apply group_rows_in_order; [apply sorted_rows_sorted|].
    intros r Hr. apply Horg. by rewrite <- (sorted_rows_perm rows). }
  split; [exact Hgen|].
  intros assets. apply Hgen. intros r Hr.
  unfold normalize_assets in Hr. apply list_elem_of_In, in_map_iff in Hr as (a & <- & _).
  done.
Qed.

(** ** Configuration flags *)

(** X25.  A flag set in the config file is read from there, whatever
    the environment holds.  A flag set through the environment alone is
    on for any text that is not empty, "false" and "0" included, and off
    for the empty text; a flag set nowhere has its default, on for
    STARTTLS and off for SSL. *)
Theorem smtp_flags_from_environment (_config : gmap string cfg_value)
    (environ : gmap string string) :
  (∀ v, _config !! "SMTP_USE_STARTTLS" = Some v →
        SMTP_USE_STARTTLS _config environ = cfg_truth v) ∧
  (∀ v, _config !! "SMTP_USE_SSL" = Some v →
        SMTP_USE_SSL _config environ = cfg_truth v) ∧
  (_config !! "SMTP_USE_STARTTLS" = None →
     SMTP_USE_STARTTLS _config environ =
       match environ !! "SMTP_USE_STARTTLS" with
       | Some s => bool_decide (s ≠ "")
       | None => true
       end) ∧
  (_config !! "SMTP_USE_SSL" = None →
     SMTP_USE_SSL _config environ =
       match environ !! "SMTP_USE_SSL" with
       | Some s => bool_decide (s ≠ "")
       | None => false
       end) ∧
  (_config !! "SMTP_USE_STARTTLS" = None →
   environ !! "SMTP_USE_STARTTLS" = Some "false" →
   SMTP_USE_STARTTLS _config environ = true).
Proof.
  unfold SMTP_USE_STARTTLS, SMTP_USE_SSL, cfg.
  split; [by intros v ->|]. split; [by intros v ->|].
  split; [|split].
  - intros ->. destruct (environ !! "SMTP_USE_STARTTLS") as [[|c s]|]; done.
  - intros ->. destruct (environ !! "SMTP_USE_SSL") as [[|c s]|]; done.
  - by intros -> ->.
Qed.

End Notifier.

(** ** The properties on the sample runs *)

Lemma failed_dispatch_leaves_state_witness :
  STATE_FILE_after (main no_iso smtp_down) = STATE_FILE smtp_down ∧
  state_writes (main no_iso smtp_down) = [].
Proof. apply (failed_dispatch_leaves_state no_iso smtp_down). vm_compute. reflexivity. Defined.

Lemma failed_dispatch_exit_code_witness : exit_code (main no_iso smtp_down) = 0.
Proof. apply (failed_dispatch_exit_code no_iso smtp_down). vm_compute. reflexivity. Defined.
Lemma disabled_seed_stays_first_run_witness :
  exit_code (main no_iso seed_off) = 0 ∧
  delivery (main no_iso seed_off) = None ∧
  state_writes (main no_iso seed_off) = [∅] ∧
  initial_run (load_state (STATE_FILE_after (main no_iso seed_off))) = true ∧
  delivery (main no_iso (next_run no_iso seed_off)) = None.
Proof.
  apply (disabled_seed_stays_first_run no_iso seed_off
           [asset "A1" (Some "Online") (TsInt 1699990000)]); reflexivity.
Defined.



Lemma empty_report_is_noop_witness :
  exit_code (main no_iso nothing_new) = 0 ∧
  delivery (main no_iso nothing_new) = None ∧
  trace (main no_iso nothing_new) = [] ∧
  state_writes (main no_iso nothing_new) = [] ∧
  STATE_FILE_after (main no_iso nothing_new) = STATE_FILE nothing_new.
Proof.
  apply (empty_report_is_noop no_iso nothing_new
           [asset "A1" (Some "Online") (TsInt 1699990000)]);
    [reflexivity | vm_compute; reflexivity | vm_compute; reflexivity].
Defined.

(** The scenarios of the specification: eleven, thirteen and twenty-five
    hours of age, the two boundaries, and a backup in progress. *)
Example classify_scenarios :
  compute_backup_status no_iso (1700000000000000 + 11 * 3600000000)
    (asset "A1" (Some "Online") (TsInt 1700000000)) = Success ∧
  compute_backup_status no_iso (1700000000000000 + 12 * 3600000000)
    (asset "A1" (Some "Online") (TsInt 1700000000)) = Success ∧
  compute_backup_status no_iso (1700000000000000 + 13 * 3600000000)
    (asset "A1" (Some "Online") (TsInt 1700000000)) = Warning ∧
  compute_backup_status no_iso (1700000000000000 + 23 * 3600000000)
    (asset "A1" (Some "Online") (TsInt 1700000000)) = Warning ∧
  compute_backup_status no_iso (1700000000000000 + 23 * 3600000000 + 1)
    (asset "A1" (Some "Online") (TsInt 1700000000)) = Failure ∧
  compute_backup_status no_iso (1700000000000000 + 25 * 3600000000)
    (asset "A1" (Some "Online") (TsInt 1700000000)) = Failure ∧
  compute_backup_status no_iso (1700000000000000 - 5 * 3600000000)
    (asset "A1" (Some "Online") (TsInt 1700000000)) = Success ∧
  compute_backup_status no_iso (1700000000000000 + 25 * 3600000000)
    (asset "A1" (Some "Backup In Progress") (TsInt 1700000000)) = Warning ∧
  compute_backup_status no_iso 1700000000000000
    (asset "A1" (Some "Online") TsNone) = Failure.
Proof. vm_compute. repeat split. Qed.

Lemma dry_run_as_accepted_send_witness :
  delivery (main no_iso dry_run_sample) ≠ Some false ∧
  exit_code (main no_iso dry_run_sample) = exit_code (main no_iso (as_live_accepting dry_run_sample)) ∧
  STATE_FILE_after (main no_iso dry_run_sample) =
    STATE_FILE_after (main no_iso (as_live_accepting dry_run_sample)) ∧
  state_writes (main no_iso dry_run_sample) =
    state_writes (main no_iso (as_live_accepting dry_run_sample)) ∧
  report (main no_iso dry_run_sample) = report (main no_iso (as_live_accepting dry_run_sample)) ∧
  delivery (main no_iso dry_run_sample) = delivery (main no_iso (as_live_accepting dry_run_sample)) ∧
  sent_mode (main no_iso dry_run_sample) = sent_mode (main no_iso (as_live_accepting dry_run_sample)).
Proof. apply (dry_run_as_accepted_send no_iso dry_run_sample). reflexivity. Defined.


Lemma no_rows_is_noop_witness :
  exit_code (main no_iso empty_feed) = 0 ∧ trace (main no_iso empty_feed) = [] ∧
  STATE_FILE_after (main no_iso empty_feed) = STATE_FILE empty_feed.
Proof. apply (no_rows_is_noop no_iso empty_feed []); reflexivity. Defined.


Lemma rerun_reports_nothing_witness :
  exit_code (main no_iso (rerun_at no_iso mixed_run at_22h)) = 0 ∧
  trace (main no_iso (rerun_at no_iso mixed_run at_22h)) = [] ∧
  STATE_FILE_after (main no_iso (rerun_at no_iso mixed_run at_22h)) =
    STATE_FILE_after (main no_iso mixed_run).
Proof.
  apply (rerun_reports_nothing no_iso mixed_run
           [asset "A1" (Some "Online") (TsInt 1699990000);
            asset "A2" (Some "Offline") TsNone]);
    [reflexivity | reflexivity | reflexivity | by apply (bool_decide_unpack _) | discriminate].
Defined.

Lemma delivery_ends_first_run_witness :
  initial_run (load_state (STATE_FILE_after (main no_iso mixed_run))) = false.
Proof. apply (delivery_ends_first_run no_iso mixed_run); reflexivity. Defined.

Lemma main_keeps_statuses_trimmed_witness :
  statuses_trimmed (load_state (STATE_FILE_after (main no_iso mixed_run))).
Proof.
  apply (main_keeps_statuses_trimmed no_iso mixed_run).
  intros k en s Hk Hs. simpl in Hk.
  apply lookup_singleton_Some in Hk as [<- <-]. injection Hs as <-.
  split; [discriminate | vm_compute; reflexivity].
Defined.

Lemma flagged_only_on_change_witness :
  known_A1 !! aid_of (asset "A1" (Some "Online") (TsInt 1699990001)) ≠
  Some (entry_of no_iso (asset "A1" (Some "Online") (TsInt 1699990001))).
Proof.
  apply (flagged_only_on_change no_iso known_A1
           (asset "A1" (Some "Online") (TsInt 1699990001))).
  vm_compute. reflexivity.
Defined.

Lemma stale_instant_needs_status_witness :
  send_flag no_iso known_A1 (asset "A1" (Some "Offline") (TsInt 1699980000)) = true ↔
  current_status_of (asset "A1" (Some "Offline") (TsInt 1699980000)) ≠ "" ∧
  current_status_of (asset "A1" (Some "Offline") (TsInt 1699980000)) ≠ or_empty (Some "Online").
Proof.
  apply (stale_instant_needs_status no_iso known_A1
           (asset "A1" (Some "Offline") (TsInt 1699980000))
           {| ts := Some 1699990000; status := Some "Online" |} 1699990000 1699980000);
    [reflexivity | reflexivity | vm_compute; reflexivity | lia].
Defined.

